(** * update_scilit: the Scilit metric extractor and updater

    A shallow embedding of [scripts/update_scilit.py] and the proofs of
    the properties its specification states.

    Text.  A Python [str] is modelled as a list of 8-bit characters, read
    as the code points U+0000..U+00FF.  On that range the character
    classes of the [re] module ([\d], [\s], [\w], IGNORECASE) are given
    exactly; the only decimal digits there are the ten ASCII ones.

    Regular expressions.  The script's six patterns are written as
    syntax trees and run by a backtracking matcher with the priorities
    of [re]: alternatives left to right, repetitions greedy.  A
    declarative relation says what a pattern matches, and the matcher is
    shown to find exactly that.

    Floats.  A Python [float] is a binary64 value of [SpecFloat]
    ([prec = 53], [emax = 1024]); [float(s)] and [round(x, 4)] are the
    correctly rounded (nearest, ties to even) operations.

    Effects.  An exception is a value of [exn] carried by [result].  A
    run reads the outside world from a record [Env] (the answer of the
    network, the date, and the library functions left uninterpreted:
    decoding and parsing of the old file, [repr] of floats and of
    exceptions) and maps a [World] (the output file and the lines
    printed) to a [World].  Writing the file is taken to succeed.

    The file has the definitions first (text, character classes,
    patterns and matcher, floats, values, JSON, the script, the notions
    of the statements), then the lemmas and the properties. *)

From Stdlib Require Import Ascii String.
From Stdlib Require Import List Bool Arith ZArith Lia.
From Stdlib Require Import SpecFloat.
From Stdlib Require DecimalString.
Import ListNotations.
Local Open Scope list_scope.

Set Implicit Arguments.
Set Warnings "-register-all".

(* ================================================================== *)
(** * Strings *)

Definition str := list ascii.

(** A literal of the script, written as a Rocq string. *)
Definition lit (s : string) : str := list_ascii_of_string s.
Arguments lit s%_string.

Fixpoint str_eqb (a b : str) : bool :=
  match a, b with
  | [], [] => true
  | x :: a', y :: b' => Ascii.eqb x y && str_eqb a' b'
  | _, _ => false
  end.

Definition str_eq_dec : forall a b : str, {a = b} + {a <> b} :=
  list_eq_dec ascii_dec.

(** [s[i:j]] for [0 <= i], [0 <= j]: indices past the end are clamped. *)
Definition slice (s : str) (i j : nat) : str := firstn (j - i) (skipn i s).

(** [s.replace(a, b)] for a one-character [a]. *)
Definition replace (a : ascii) (b : str) (s : str) : str :=
  flat_map (fun c => if Ascii.eqb c a then b else [c]) s.

(** The character before a position: the last one of [m], or [prev]
    when [m] is empty. *)
Definition last_char (prev : option ascii) (m : str) : option ascii :=
  match rev m with
  | [] => prev
  | c :: _ => Some c
  end.

(* ================================================================== *)
(** * Character classes of [re] on U+0000..U+00FF *)

Module CharClass.

Definition code (c : ascii) : nat := nat_of_ascii c.

Definition between (lo hi : nat) (c : ascii) : bool :=
  (lo <=? code c) && (code c <=? hi).

(** [\d]: Unicode category Nd. *)
Definition is_digit (c : ascii) : bool := between 48 57 c.

(** [\s]: [str.isspace], that is TAB..CR, FS..US, SPACE, NEL, NBSP. *)
Definition is_space (c : ascii) : bool :=
  between 9 13 c || between 28 31 c || (code c =? 32)
  || (code c =? 133) || (code c =? 160).

(** Alphanumeric in the sense of [str.isalnum]: letters, decimal digits,
    and the characters with a digit or numeric value. *)
Definition is_alnum (c : ascii) : bool :=
  between 48 57 c || between 65 90 c || between 97 122 c
  || (code c =? 170) || (code c =? 178) || (code c =? 179)
  || (code c =? 181) || (code c =? 185) || (code c =? 186)
  || between 188 190 c
  || between 192 214 c || between 216 246 c || between 248 255 c.

(** [\w]. *)
Definition is_word (c : ascii) : bool := is_alnum c || (code c =? 95).

(** Simple lower-case mapping, as [re] applies it under IGNORECASE. *)
Definition lower (c : ascii) : ascii :=
  if between 65 90 c || (between 192 222 c && negb (code c =? 215))
  then ascii_of_nat (code c + 32)
  else c.

Definition is_word_opt (o : option ascii) : bool :=
  match o with
  | Some c => is_word c
  | None => false
  end.

End CharClass.

(* ================================================================== *)
(** * Regular expressions and the backtracking matcher *)

Module Re.
Import CharClass.

Inductive re : Type :=
| Eps : re
| Chr : (ascii -> bool) -> re
| Cat : re -> re -> re
| Alt : re -> re -> re
| Star : re -> re
| WordB : re.

(** Derived forms, with the priorities of the greedy operators. *)
Definition Opt (r : re) : re := Alt r Eps.
Definition Plus (r : re) : re := Cat r (Star r).
Definition Lit (c : ascii) : re := Chr (Ascii.eqb c).
Definition LitI (c : ascii) : re :=
  Chr (fun x => Ascii.eqb (lower x) (lower c)).
Definition Digit : re := Chr is_digit.
Definition Space : re := Chr is_space.

Fixpoint Seq (rs : list re) : re :=
  match rs with
  | [] => Eps
  | [r] => r
  | r :: rs' => Cat r (Seq rs')
  end.

(** A word of the pattern under IGNORECASE. *)
Definition WordI (s : string) : re := Seq (map LitI (lit s)).
Arguments WordI s%_string.

(** A continuation receives the character before the position reached
    and the rest of the subject, and yields the rest left after the
    whole match. *)
Definition cont := option ascii -> str -> option str.

(** The greedy loop of [r*]: one more iteration of the body first, and
    only when that fails, the continuation.  An iteration that consumes
    nothing is not repeated, so one unit of fuel for each character left
    is enough. *)
Fixpoint star_loop (body : option ascii -> str -> cont -> option str)
    (fuel : nat) (prev : option ascii) (s : str) (k : cont) : option str :=
  match fuel with
  | O => k prev s
  | S fuel' =>
      match body prev s
              (fun prev' s' =>
                 if length s' <? length s
                 then star_loop body fuel' prev' s' k
                 else None) with
      | Some x => Some x
      | None => k prev s
      end
  end.

Fixpoint mt (r : re) (prev : option ascii) (s : str) (k : cont)
    {struct r} : option str :=
  match r with
  | Eps => k prev s
  | Chr p =>
      match s with
      | c :: s' => if p c then k (Some c) s' else None
      | [] => None
      end
  | Cat r1 r2 => mt r1 prev s (fun prev' s' => mt r2 prev' s' k)
  | Alt r1 r2 =>
      match mt r1 prev s k with
      | Some x => Some x
      | None => mt r2 prev s k
      end
  | Star r1 => star_loop (mt r1) (length s) prev s k
  | WordB =>
      if xorb (is_word_opt prev) (is_word_opt (hd_error s))
      then k prev s
      else None
  end.

(** The match of [r] that starts exactly at the head of [s]. *)
Definition match_here (r : re) (prev : option ascii) (s : str) : option str :=
  mt r prev s (fun _ rest => Some rest).

(** [re.search]: the leftmost position with a match; the result is
    [(m.start(), m.end())]. *)
Fixpoint search_at (r : re) (prev : option ascii) (i : nat) (s : str)
    : option (nat * nat) :=
  match match_here r prev s with
  | Some rest => Some (i, i + (length s - length rest))
  | None =>
      match s with
      | [] => None
      | c :: s' => search_at r (Some c) (S i) s'
      end
  end.

Definition search (r : re) (s : str) : option (nat * nat) :=
  search_at r None 0 s.

(** [re.findall] for a pattern whose only group is the whole match:
    the successive non-overlapping matches, left to right.  After an
    empty match the scan moves on by one character; the patterns of the
    script match no empty text.  The fuel, one more than the length of
    the subject, is never used up. *)
Fixpoint findall_go (r : re) (fuel : nat) (prev : option ascii) (s : str)
    : list str :=
  match fuel with
  | O => []
  | S fuel' =>
      match match_here r prev s with
      | Some rest =>
          let n := length s - length rest in
          let m := firstn n s in
          match n, s with
          | S _, _ => m :: findall_go r fuel' (last_char prev m) rest
          | O, c :: s' => m :: findall_go r fuel' (Some c) s'
          | O, [] => [m]
          end
      | None =>
          match s with
          | [] => []
          | c :: s' => findall_go r fuel' (Some c) s'
          end
      end
  end.

Definition findall (r : re) (s : str) : list str :=
  findall_go r (S (length s)) None s.

(** The matches of a pattern, stated without the matcher:
    [matches r prev m rest] holds when [r] matches the text [m] that
    comes after the character [prev] and before the text [rest].
    An iteration of a repetition is never empty. *)
Inductive matches : re -> option ascii -> str -> str -> Prop :=
| M_Eps : forall prev rest, matches Eps prev [] rest
| M_Chr : forall (p : ascii -> bool) c prev rest,
    p c = true -> matches (Chr p) prev [c] rest
| M_Cat : forall r1 r2 prev m1 m2 rest,
    matches r1 prev m1 (m2 ++ rest) ->
    matches r2 (last_char prev m1) m2 rest ->
    matches (Cat r1 r2) prev (m1 ++ m2) rest
| M_AltL : forall r1 r2 prev m rest,
    matches r1 prev m rest -> matches (Alt r1 r2) prev m rest
| M_AltR : forall r1 r2 prev m rest,
    matches r2 prev m rest -> matches (Alt r1 r2) prev m rest
| M_Star0 : forall r prev rest, matches (Star r) prev [] rest
| M_StarS : forall r prev m1 m2 rest,
    m1 <> [] ->
    matches r prev m1 (m2 ++ rest) ->
    matches (Star r) (last_char prev m1) m2 rest ->
    matches (Star r) prev (m1 ++ m2) rest
| M_WordB : forall prev rest,
    xorb (is_word_opt prev) (is_word_opt (hd_error rest)) = true ->
    matches WordB prev [] rest.

(** The characters a pattern can consume. *)
Fixpoint chars_of (r : re) (c : ascii) : bool :=
  match r with
  | Eps | WordB => false
  | Chr p => p c
  | Cat r1 r2 | Alt r1 r2 => chars_of r1 c || chars_of r2 c
  | Star r1 => chars_of r1 c
  end.

(** [r] matches somewhere in [s]. *)
Definition occurs (r : re) (s : str) : Prop :=
  exists pre m post,
    s = pre ++ m ++ post /\ matches r (last_char None pre) m post.

End Re.

(* ================================================================== *)
(** * Python floats *)

Module F64.
Import CharClass.
Local Open Scope Z_scope.

Definition prec : Z := 53.
Definition emax : Z := 1024.

Definition float := spec_float.

(** The binary64 value nearest to [n / d] (ties to even). *)
Definition of_ratio (n : Z) (d : positive) : float :=
  match n with
  | Zpos p => SFdiv prec emax (S754_finite false p 0) (S754_finite false d 0)
  | _ => S754_zero false
  end.

Definition digit_val (c : ascii) : Z := Z.of_nat (code c - 48).

Fixpoint digits_val (acc : Z) (ds : str) : Z :=
  match ds with
  | [] => acc
  | c :: ds' => digits_val (10 * acc + digit_val c) ds'
  end.

Definition all_digits (s : str) : bool := forallb is_digit s.

Definition is_nil (s : str) : bool :=
  match s with
  | [] => true
  | _ => false
  end.

(** The text before the first ['.'], and the text after it if there is one. *)
Fixpoint split_dot (s : str) : str * option str :=
  match s with
  | [] => ([], None)
  | c :: s' =>
      if Ascii.eqb c "."%char then ([], Some s')
      else let (a, b) := split_dot s' in (c :: a, b)
  end.

(** [float(s)] on the strings the script passes to it, which hold decimal
    digits and ['.'] only: [digits], [digits.], [digits.digits] and
    [.digits] are read, anything else raises [ValueError] ([None]). *)
Definition py_float (s : str) : option float :=
  match split_dot s with
  | (ip, None) =>
      if all_digits ip && negb (is_nil ip)
      then Some (of_ratio (digits_val 0 ip) 1)
      else None
  | (ip, Some fp) =>
      if all_digits ip && all_digits fp && negb (is_nil ip && is_nil fp)
      then Some (of_ratio (digits_val 0 (ip ++ fp))
                          (Z.to_pos (10 ^ Z.of_nat (length fp))))
      else None
  end.

(** [x.is_integer()]. *)
Definition is_integer (x : float) : bool :=
  match x with
  | S754_zero _ => true
  | S754_finite _ m e => (0 <=? e) || (Zpos m mod 2 ^ (- e) =? 0)
  | _ => false
  end.

(** [int(x)]: truncation toward zero; infinities and NaN raise. *)
Definition to_int (x : float) : option Z :=
  match x with
  | S754_zero _ => Some 0
  | S754_finite s m e =>
      let a := if 0 <=? e then Zpos m * 2 ^ e else Zpos m / 2 ^ (- e) in
      Some (if s then - a else a)
  | _ => None
  end.

(** The integer nearest to [p / q], ties to even, for [0 <= p], [0 < q]. *)
Definition round_half_even (p q : Z) : Z :=
  let f := p / q in
  match 2 * (p mod q) ?= q with
  | Lt => f
  | Gt => f + 1
  | Eq => if Z.even f then f else f + 1
  end.

(** [round(x, ndigits)] for [0 <= ndigits]: the exact value of [x] is
    rounded to [ndigits] decimals, ties to even, and the decimal obtained
    is read back as a float. *)
Definition py_round (x : float) (ndigits : nat) : float :=
  match x with
  | S754_finite s m e =>
      let scale := 10 ^ Z.of_nat ndigits in
      let y := if 0 <=? e then Zpos m * 2 ^ e * scale
               else round_half_even (Zpos m * scale) (2 ^ (- e)) in
      let r := of_ratio y (Z.to_pos scale) in
      if s then SFopp r else r
  | _ => x
  end.

(** Not NaN and sign bit clear. *)
Definition nonneg (x : float) : bool :=
  match x with
  | S754_zero s | S754_infinity s | S754_finite s _ _ => negb s
  | S754_nan => false
  end.

End F64.

(* ================================================================== *)
(** * Python values, exceptions, and the outside world *)

Module Py.
Import F64.

(** The values [json.loads] builds and [json.dumps] writes.  A [dict]
    is an association list in insertion order; a lookup takes the first
    entry of the key. *)
Inductive pyval : Type :=
| VNone : pyval
| VBool : bool -> pyval
| VInt : Z -> pyval
| VFloat : float -> pyval
| VStr : str -> pyval
| VList : list pyval -> pyval
| VDict : list (str * pyval) -> pyval.

Inductive exn : Type :=
| RequestException : str -> exn      (* raised inside [requests.get] *)
| HTTPError : nat -> exn             (* raised by [raise_for_status] *)
| AttributeError : str -> str -> exn (* type name, attribute *)
| KeyError : str -> exn
| TypeError : str -> exn
| ValueError : str -> exn.

Inductive result (A : Type) : Type :=
| Ok : A -> result A
| Raise : exn -> result A.
Arguments Ok {A} _.
Arguments Raise {A} _.

Definition bind {A B} (m : result A) (f : A -> result B) : result B :=
  match m with
  | Ok a => f a
  | Raise e => Raise e
  end.

Notation "x <- m ;; f" := (bind m (fun x => f))
  (at level 61, m at next level, right associativity).

Definition type_name (v : pyval) : str :=
  match v with
  | VNone => lit "NoneType"
  | VBool _ => lit "bool"
  | VInt _ => lit "int"
  | VFloat _ => lit "float"
  | VStr _ => lit "str"
  | VList _ => lit "list"
  | VDict _ => lit "dict"
  end.

Fixpoint assoc (key : str) (d : list (str * pyval)) : option pyval :=
  match d with
  | [] => None
  | (k, v) :: d' => if str_eqb k key then Some v else assoc key d'
  end.

(** [o.get(key)]. *)
Definition py_get (o : pyval) (key : str) : result pyval :=
  match o with
  | VDict d =>
      Ok (match assoc key d with
          | Some v => v
          | None => VNone
          end)
  | _ => Raise (AttributeError (type_name o) (lit "get"))
  end.

(** [o[key]] for a string [key]. *)
Definition py_getitem (o : pyval) (key : str) : result pyval :=
  match o with
  | VDict d =>
      match assoc key d with
      | Some v => Ok v
      | None => Raise (KeyError key)
      end
  | _ => Raise (TypeError (type_name o))
  end.

(** [isinstance(v, list)]. *)
Definition is_list (v : pyval) : bool :=
  match v with
  | VList _ => true
  | _ => false
  end.

Record Response : Type := {
  status_code : nat;
  text : str
}.

(** What a run takes from outside: the network, the clock, and the
    library functions the model does not interpret.  [None] stands for
    an exception of the library function. *)
Record Env : Type := {
  http_get : str -> list (str * str) -> nat -> result Response;
  utc_today : str;
  decode_utf8 : list Byte.byte -> option str;
  json_loads : str -> option pyval;
  float_repr : float -> str;
  exn_repr : exn -> str
}.

(** The state a run changes: the output file (absent, or its bytes) and
    the lines printed. *)
Record World : Type := {
  out_json : option (list Byte.byte);
  stdout : list str
}.

End Py.

(* ================================================================== *)
(** * [json.dumps(payload, ensure_ascii=False, indent=2)] and UTF-8 *)

Module Json.
Import F64 Py.

Definition dquote : ascii := ascii_of_nat 34.
Definition backslash : ascii := ascii_of_nat 92.

Definition hex_digit (n : nat) : ascii :=
  if n <? 10 then ascii_of_nat (48 + n) else ascii_of_nat (87 + n).

(** One character of a string under [ensure_ascii=False]: the quote,
    the backslash and the control characters below U+0020 are escaped,
    every other character is written as it is. *)
Definition escape_char (c : ascii) : str :=
  let n := nat_of_ascii c in
  if n =? 34 then [backslash; dquote]
  else if n =? 92 then [backslash; backslash]
  else if n =? 10 then backslash :: lit "n"
  else if n =? 13 then backslash :: lit "r"
  else if n =? 9 then backslash :: lit "t"
  else if n =? 8 then backslash :: lit "b"
  else if n =? 12 then backslash :: lit "f"
  else if n <? 32
       then backslash :: lit "u00" ++ [hex_digit (n / 16); hex_digit (n mod 16)]
  else [c].

Definition encode_string (s : str) : str :=
  dquote :: flat_map escape_char s ++ [dquote].

(** [int.__repr__]. *)
Definition int_repr (z : Z) : str :=
  lit (DecimalString.NilZero.string_of_int (Z.to_int z)).

Definition newline_indent (level : nat) : str :=
  ascii_of_nat 10 :: repeat " "%char (2 * level).

Section Dumps.
Variable env : Env.

Definition encode_float (x : float) : str :=
  match x with
  | S754_nan => lit "NaN"
  | S754_infinity false => lit "Infinity"
  | S754_infinity true => lit "-Infinity"
  | _ => float_repr env x
  end.

(** The text of [v] when it opens at nesting depth [level]. *)
Fixpoint dumps_at (level : nat) (v : pyval) {struct v} : str :=
  match v with
  | VNone => lit "null"
  | VBool true => lit "true"
  | VBool false => lit "false"
  | VInt z => int_repr z
  | VFloat x => encode_float x
  | VStr s => encode_string s
  | VList [] => lit "[]"
  | VList (x :: xs) =>
      lit "[" ++ newline_indent (S level) ++ dumps_at (S level) x
      ++ (fix items (l : list pyval) : str :=
            match l with
            | [] => []
            | y :: l' =>
                lit "," ++ newline_indent (S level)
                ++ dumps_at (S level) y ++ items l'
            end) xs
      ++ newline_indent level ++ lit "]"
  | VDict [] => lit "{}"
  | VDict ((k, x) :: kxs) =>
      lit "{" ++ newline_indent (S level)
      ++ encode_string k ++ lit ": " ++ dumps_at (S level) x
      ++ (fix items (l : list (str * pyval)) : str :=
            match l with
            | [] => []
            | (k', y) :: l' =>
                lit "," ++ newline_indent (S level)
                ++ encode_string k' ++ lit ": "
                ++ dumps_at (S level) y ++ items l'
            end) kxs
      ++ newline_indent level ++ lit "}"
  end.

Definition json_dumps (v : pyval) : str := dumps_at 0 v.

End Dumps.

(** [text.encode("utf-8")] for code points up to U+00FF. *)
Definition utf8_char (c : ascii) : list Byte.byte :=
  let n := nat_of_ascii c in
  if n <? 128 then [byte_of_ascii c]
  else [byte_of_ascii (ascii_of_nat (192 + n / 64));
        byte_of_ascii (ascii_of_nat (128 + n mod 64))].

Definition encode_utf8 (s : str) : list Byte.byte := flat_map utf8_char s.

End Json.

(* ================================================================== *)
(** * The script *)

Module Scilit.
Import CharClass Re F64 Py Json.

Definition SCILIT_URL : str := lit "https://www.scilit.com/sources/96056".

(** ** The patterns *)

(** [\bh5[-\s]?index\b], IGNORECASE. *)
Definition h5_label : re :=
  Seq [WordB; LitI "h"; Lit "5";
       Opt (Chr (fun c => Ascii.eqb c "-" || is_space c));
       WordI "index"; WordB].

(** [Monthly\s+Citation\s+Metric], IGNORECASE. *)
Definition mcm_label : re :=
  Seq [WordI "Monthly"; Plus Space; WordI "Citation"; Plus Space;
       WordI "Metric"].

Definition Sep : re := Chr (fun c => Ascii.eqb c "." || Ascii.eqb c ",").

(** [(\d{1,3}(?:[.,]\d{3})*(?:[.,]\d+)?)] *)
Definition number_re : re :=
  Seq [Digit; Opt (Cat Digit (Opt Digit));
       Star (Seq [Sep; Digit; Digit; Digit]);
       Opt (Seq [Sep; Plus Digit])].

(** [(20\d{2}-\d{2})] *)
Definition month_re : re :=
  Seq [Lit "2"; Lit "0"; Digit; Digit; Lit "-"; Digit; Digit].

(** [\d+(?:\.\d+)?] *)
Definition value_re : re :=
  Seq [Plus Digit; Opt (Seq [Lit "."; Plus Digit])].

(** [\[(?:\s*\d+(?:\.\d+)?\s*,?)+\s*\]] *)
Definition array_re : re :=
  Seq [Lit "[";
       Plus (Seq [Star Space; Plus Digit; Opt (Seq [Lit "."; Plus Digit]);
                  Star Space; Opt (Lit ",")]);
       Star Space; Lit "]"].

(** ** [fetch_html] *)

Definition headers : list (str * str) :=
  [ (lit "User-Agent",
     lit "Mozilla/5.0 (Windows NT 10.0; Win64; x64) AppleWebKit/537.36 (KHTML, like Gecko) Chrome/120.0.0.0 Safari/537.36");
    (lit "Accept",
     lit "text/html,application/xhtml+xml,application/xml;q=0.9,*/*;q=0.8");
    (lit "Accept-Language", lit "pt-BR,pt;q=0.9,en;q=0.8");
    (lit "Referer", lit "https://www.scilit.com/") ].

(** [r.raise_for_status()]: statuses 400..599 raise. *)
Definition raise_for_status (r : Response) : result unit :=
  if (400 <=? status_code r) && (status_code r <? 600)
  then Raise (HTTPError (status_code r))
  else Ok tt.

Definition fetch_html (env : Env) (url : str) : result str :=
  r <- http_get env url headers 30 ;;
  _ <- raise_for_status r ;;
  Ok (text r).

(** ** [parse_number_near_label] *)

(** What the function returns when it is not [None]. *)
Inductive pynum : Type :=
| PInt : Z -> pynum
| PFloat : float -> pynum.

(** Indices are natural numbers, so [m.start() - 200] already stops at
    [0]; the [max] of the source is kept. *)
Definition parse_number_near_label (html : str) (label_regex : re)
    : option pynum :=
  match search label_regex html with
  | None => None
  | Some (m_start, m_end) =>
      let start := Nat.max (m_start - 200) 0 in
      let end_ := Nat.min (m_end + 400) (length html) in
      let chunk := slice html start end_ in
      match search number_re chunk with
      | None => None
      | Some (a, b) =>
          let s := replace "," (lit ".") (replace "." [] (slice chunk a b)) in
          match py_float s with
          | Some x =>
              if is_integer x then option_map PInt (to_int x)
              else Some (PFloat x)
          | None => None
          end
      end
  end.

(** ** [parse_series] *)

Record point : Type := { month : str; value : float }.

(** [[m for m in months if not (m in seen or seen.add(m))]]: [seen.add]
    returns [None], so an unseen [m] is added and kept. *)
Fixpoint dedup (seen : list str) (months : list str) : list str :=
  match months with
  | [] => []
  | m :: ms =>
      if existsb (str_eqb m) seen then dedup seen ms
      else m :: dedup (m :: seen) ms
  end.

(** [[float(v) for v in values]] *)
Fixpoint floats (values : list str) : result (list float) :=
  match values with
  | [] => Ok []
  | v :: vs =>
      match py_float v with
      | Some x => xs <- floats vs ;; Ok (x :: xs)
      | None => Raise (ValueError v)
      end
  end.

Definition window_size : nat := N.to_nat 50000.

(** [[{"month": months[i], "value": round(values[i], 4)} for i in range(n)]];
    the indices stay below both lengths, so no lookup fails. *)
Definition build_series (months : list str) (values : list float) (n : nat)
    : list point :=
  map (fun i => {| month := nth i months [];
                   value := py_round (nth i values S754_nan) 4 |})
      (seq 0 n).

Definition parse_series (html : str) : result (list point) :=
  let months := dedup [] (findall month_re html) in
  match search mcm_label html with
  | None => Ok []
  | Some (idx_start, _) =>
      let window := slice html idx_start (idx_start + window_size) in
      match search array_re window with
      | None => Ok []
      | Some (a, b) =>
          let raw := slice window a b in
          values <- floats (findall value_re raw) ;;
          let n := Nat.min (length months) (length values) in
          if n =? 0 then Ok []
          else Ok (build_series months values n)
      end
  end.

(** ** [main] *)

Definition py_of_num (n : pynum) : pyval :=
  match n with
  | PInt z => VInt z
  | PFloat x => VFloat x
  end.

Definition py_of_point (p : point) : pyval :=
  VDict [(lit "month", VStr (month p)); (lit "value", VFloat (value p))].

(** Lines 98-103: the old JSON, or [{}]. *)
Definition load_old (env : Env) (w : World) : pyval :=
  match out_json w with
  | None => VDict []
  | Some bytes =>
      match decode_utf8 env bytes with
      | None => VDict []
      | Some txt =>
          match json_loads env txt with
          | Some v => v
          | None => VDict []
          end
      end
  end.

(** Lines 108-123: the payload built from the page. *)
Definition build_payload (env : Env) (old : pyval) (html : str)
    : result pyval :=
  let h5_index := parse_number_near_label html h5_label in
  let mcm := parse_number_near_label html mcm_label in
  series <- parse_series html ;;
  series <-
    match series with
    | [] =>
        s <- py_get old (lit "series") ;;
        if is_list s then py_getitem old (lit "series")
        else Ok (VList [])
    | _ :: _ => Ok (VList (map py_of_point series))
    end ;;
  h5 <- match h5_index with
        | Some n => Ok (py_of_num n)
        | None => py_get old (lit "h5_index")
        end ;;
  m <- match mcm with
       | Some n => Ok (py_of_num n)
       | None => py_get old (lit "mcm")
       end ;;
  Ok (VDict [(lit "source", VStr SCILIT_URL);
             (lit "updated_at", VStr (utc_today env));
             (lit "h5_index", h5);
             (lit "mcm", m);
             (lit "series", series)]).

(** Lines 106-125: the body of the [try], up to the bytes to write. *)
Definition main_try (env : Env) (old : pyval) : result (list Byte.byte) :=
  html <- fetch_html env SCILIT_URL ;;
  payload <- build_payload env old html ;;
  Ok (encode_utf8 (json_dumps env payload)).

Definition ok_line : str := lit "OK: JSON atualizado.".

Definition error_line (env : Env) (e : exn) : str :=
  lit "ERRO ao atualizar (mantendo JSON anterior):" ++ lit " " ++ exn_repr env e.

Definition main (env : Env) (w : World) : World :=
  let old := load_old env w in
  match main_try env old with
  | Ok bytes =>
      {| out_json := Some bytes; stdout := stdout w ++ [ok_line] |}
  | Raise e =>
      {| out_json := out_json w; stdout := stdout w ++ [error_line env e] |}
  end.

End Scilit.

(* ================================================================== *)
(** * Notions the properties are stated with *)

Module Spec.
Import CharClass Re F64 Py Json Scilit.

(** How many different texts a list holds. *)
Definition distinct_count (l : list str) : nat :=
  length (nodup str_eq_dec l).

(** [s] begins with [p], letter case apart. *)
Fixpoint starts_with_ci (p s : str) : bool :=
  match p, s with
  | [], _ => true
  | a :: p', c :: s' => Ascii.eqb (lower c) (lower a) && starts_with_ci p' s'
  | _ :: _, [] => false
  end.

(** The literal text [p] occurs in [s], letter case apart. *)
Fixpoint contains_ci (p s : str) : bool :=
  starts_with_ci p s
  || match s with
     | [] => false
     | _ :: s' => contains_ci p s'
     end.

(** [a] is the word [w], letter case apart. *)
Definition eq_ci (a : str) (w : string) : Prop :=
  map lower a = map lower (lit w).
Arguments eq_ci a w%_string.

(** A non-empty run of whitespace. *)
Definition spaces (s : str) : Prop :=
  s <> [] /\ forallb is_space s = true.

(** The three words of the phrase occur in a row, letter case apart,
    with a run of whitespace between each two. *)
Definition phrase_words_occur (html : str) : Prop :=
  exists pre a s1 b s2 c post,
    html = pre ++ a ++ s1 ++ b ++ s2 ++ c ++ post
    /\ eq_ci a "Monthly" /\ spaces s1 /\ eq_ci b "Citation"
    /\ spaces s2 /\ eq_ci c "Metric".

(** The form [20YY-MM] with any two digits for [MM]. *)
Definition is_month (m : str) : bool :=
  match m with
  | [c1; c2; d1; d2; h; d3; d4] =>
      Ascii.eqb c1 "2" && Ascii.eqb c2 "0" && is_digit d1 && is_digit d2
      && Ascii.eqb h "-" && is_digit d3 && is_digit d4
  | _ => false
  end.

(** A decimal digit or the point. *)
Definition digit_or_dot (c : ascii) : bool := is_digit c || Ascii.eqb c ".".

(** The window [parse_number_near_label] cuts around a label found at
    [i..j], and the number it reads there: the first match of the number
    grammar, normalized as at lines 50-55. *)
Definition label_window (html : str) (i j : nat) : str :=
  slice html (Nat.max (i - 200) 0) (Nat.min (j + 400) (length html)).

Definition read_number (tok : str) : option pynum :=
  match py_float (replace "," (lit ".") (replace "." [] tok)) with
  | Some x =>
      if is_integer x then option_map PInt (to_int x) else Some (PFloat x)
  | None => None
  end.

Definition first_number (chunk : str) : option pynum :=
  match search number_re chunk with
  | None => None
  | Some (a, b) => read_number (slice chunk a b)
  end.

(** The value under [key] of a snapshot, [None] when there is none. *)
Definition field (key : string) (v : pyval) : pyval :=
  match v with
  | VDict d =>
      match assoc (lit key) d with
      | Some x => x
      | None => VNone
      end
  | _ => VNone
  end.
Arguments field key%_string v.

(** The binary64 values of the decimals 0.1, 0.2, 0.42, 1.0 and 1.276
    (0.1 is 0x1.999999999999ap-4, that is 0x1999999999999a * 2^-56). *)
Definition f_0_1 : float := S754_finite false 7205759403792794 (-56).
Definition f_0_2 : float := S754_finite false 7205759403792794 (-55).
Definition f_0_42 : float := S754_finite false 7566047373982433 (-54).
Definition f_1_0 : float := S754_finite false 4503599627370496 (-52).
Definition f_1_276 : float := S754_finite false 5746593124524753 (-52).

(** JSON text written with apostrophes for its quotation marks. *)
Definition json_text (s : string) : str :=
  map (fun c => if Ascii.eqb c "'" then dquote else c) (lit s).
Arguments json_text s%_string.

(** The entry a successful run writes for a scalar: the number parsed
    from the page, else the value of the old snapshot, else [None]. *)
Definition scalar_entry (parsed : option pynum) (key : string) (old : pyval)
    : pyval :=
  match parsed with
  | Some n => py_of_num n
  | None => field key old
  end.
Arguments scalar_entry parsed key%_string old.

(** The series a successful run writes: the one of the page, or the
    list of the old snapshot when the page gives none. *)
Definition written_series (old : pyval) (new : list point) : pyval :=
  match new with
  | [] =>
      match field "series" old with
      | VList l => VList l
      | _ => VList []
      end
  | _ :: _ => VList (map py_of_point new)
  end.

(** One entry of the top-level object in the indented text: a new
    line, two blanks, the key, a colon and a blank, the value. *)
Definition entry_line (key : string) (v : str) : str :=
  newline_indent 1 ++ encode_string (lit key) ++ lit ": " ++ v.
Arguments entry_line key%_string v.

(** ** Sample runs *)

(** An outside world with a fixed answer of the network and a fixed
    reading of the old file. *)
Definition sample_env (answer : result Response) (old : option pyval) : Env :=
  {| http_get := fun _ _ _ => answer;
     utc_today := lit "2026-01-15";
     decode_utf8 := fun bytes => Some (map ascii_of_byte bytes);
     json_loads := fun _ => old;
     float_repr := fun _ => lit "0.0";
     exn_repr := fun e =>
       match e with
       | RequestException d => lit "ConnectionError(" ++ d ++ lit ")"
       | HTTPError _ => lit "HTTPError()"
       | AttributeError _ _ => lit "AttributeError()"
       | KeyError _ => lit "KeyError()"
       | TypeError _ => lit "TypeError()"
       | ValueError _ => lit "ValueError()"
       end |}.

(** The snapshot of the specification's scenario, as text and as the
    value read from it. *)
Definition scenario_text : str :=
  json_text "{'h5_index': 5, 'mcm': 0.42, 'series': [{'month':'2024-01','value':0.1}]}".

Definition scenario_snapshot : pyval :=
  VDict [(lit "h5_index", VInt 5);
         (lit "mcm", VFloat f_0_42);
         (lit "series",
          VList [VDict [(lit "month", VStr (lit "2024-01"));
                        (lit "value", VFloat f_0_1)]])].

Definition scenario_world : World :=
  {| out_json := Some (encode_utf8 scenario_text); stdout := [] |}.

(** ** Sample pages *)

(** A page with the h5-index label and nothing else. *)
Definition page_h5_only : str :=
  lit "<li>h5-index: 12</li>".

(** The phrase, three month tokens with a repeated one, and an array of
    three values. *)
Definition page_repeated_month : str :=
  lit "<h2>Monthly Citation Metric</h2> 2024-01, 2024-02, 2024-01 data: [0.10, 0.20, 0.30]".

(** The words of the phrase two blanks apart. *)
Definition page_wide_blanks : str :=
  lit "Monthly  Citation  Metric 2024-01 [1]".

(** A month token whose month number is 99. *)
Definition page_month_99 : str :=
  lit "2024-99 Monthly Citation Metric [7]".

End Spec.

(* ================================================================== *)
(** * Further notions *)

Module MoreSpec.
Import CharClass Re F64 Py Json Scilit Spec.

(** No decimal digit occurs in the text. *)
Definition no_digit (s : str) : bool :=
  forallb (fun c => negb (is_digit c)) s.

(** How many commas the text holds. *)
Definition commas (s : str) : nat := count_occ ascii_dec s ","%char.

(** [t] occurs in [s]. *)
Definition substring (t s : str) : Prop :=
  exists pre post, s = pre ++ t ++ post.

(** [isinstance(v, dict)]. *)
Definition is_dict (v : pyval) : bool :=
  match v with
  | VDict _ => true
  | _ => false
  end.

(** The number three digits write. *)
Definition three_digits (d1 d2 d3 : ascii) : Z :=
  (100 * digit_val d1 + 10 * digit_val d2 + digit_val d3)%Z.

(** A snapshot with another date. *)
Definition with_date (today : str) (payload : pyval) : pyval :=
  match payload with
  | VDict d =>
      VDict (map (fun kv => if str_eqb (fst kv) (lit "updated_at")
                            then (fst kv, VStr today) else kv) d)
  | _ => payload
  end.

(** A hyphen, one whitespace character, or nothing. *)
Definition h5_gap (g : str) : Prop :=
  g = [] \/ exists c, g = [c] /\ (Ascii.eqb c "-" || is_space c) = true.

(** The label of the h5-index occurs in [html]: an [h], the digit 5,
    the gap and the word [index], letter case apart, with no word
    character right before and none right after. *)
Definition h5_label_occurs (html : str) : Prop :=
  exists pre h g idx post,
    html = pre ++ h :: "5"%char :: g ++ idx ++ post
    /\ lower h = "h"%char /\ h5_gap g /\ eq_ci idx "index"
    /\ is_word_opt (last_char None pre) = false
    /\ is_word_opt (hd_error post) = false.

End MoreSpec.

(* ================================================================== *)
(** * Facts about strings *)

Lemma last_char_snoc : forall prev m c, last_char prev (m ++ [c]) = Some c.
Proof.
  intros prev m c. unfold last_char. rewrite rev_app_distr. reflexivity.
Qed.

Lemma last_char_app : forall prev m1 m2,
  last_char prev (m1 ++ m2) = last_char (last_char prev m1) m2.
Proof.
  intros prev m1 m2. destruct m2 as [|c m2] using rev_ind.
  - rewrite app_nil_r. reflexivity.
  - rewrite app_assoc, !last_char_snoc. reflexivity.
Qed.

Lemma last_char_cons : forall prev c m,
  last_char prev (c :: m) = last_char (Some c) m.
Proof.
  intros prev c m. change (c :: m) with ([c] ++ m).
  rewrite last_char_app. reflexivity.
Qed.

Lemma slice_app : forall (pre m post : str),
  slice (pre ++ m ++ post) (length pre) (length pre + length m) = m.
Proof.
  intros pre m post. unfold slice.
  rewrite skipn_app, skipn_all, Nat.sub_diag. simpl.
  replace (length pre + length m - length pre) with (length m) by lia.
  rewrite firstn_app, firstn_all, Nat.sub_diag. simpl. apply app_nil_r.
Qed.

(* ================================================================== *)
(** * The matcher finds exactly the matches *)

Module ReFacts.
Import CharClass Re.

(** A successful run of the matcher has consumed a match of the pattern
    and then succeeded in its continuation. *)
Lemma star_loop_sound : forall r,
  (forall prev s k x, mt r prev s k = Some x ->
     exists m rest, s = m ++ rest /\ matches r prev m rest
                    /\ k (last_char prev m) rest = Some x) ->
  forall fuel prev s k x,
    star_loop (mt r) fuel prev s k = Some x ->
    exists m rest, s = m ++ rest /\ matches (Star r) prev m rest
                   /\ k (last_char prev m) rest = Some x.
Proof.
  intros r IHr fuel. induction fuel as [|fuel IH]; intros prev s k x H.
  - exists [], s. repeat split; [constructor | exact H].
  - simpl in H.
    destruct (mt r prev s _) as [y|] eqn:E.
    + injection H as ->.
      apply IHr in E. destruct E as (m1 & rest1 & -> & Hm1 & Hk).
      destruct (length rest1 <? length (m1 ++ rest1)) eqn:Hlt; [|discriminate].
      apply IH in Hk. destruct Hk as (m2 & rest & -> & Hm2 & Hk).
      exists (m1 ++ m2), rest. rewrite app_assoc. split; [reflexivity|]. split.
      * apply M_StarS; trivial.
        intros ->. apply Nat.ltb_lt in Hlt. simpl in Hlt. lia.
      * rewrite last_char_app. exact Hk.
    + exists [], s. repeat split; [constructor | exact H].
Qed.

Lemma mt_sound : forall r prev s k x,
  mt r prev s k = Some x ->
  exists m rest, s = m ++ rest /\ matches r prev m rest
                 /\ k (last_char prev m) rest = Some x.
Proof.
  induction r as [|p|r1 IH1 r2 IH2|r1 IH1 r2 IH2|r IH|]; intros prev s k x H.
  - exists [], s. repeat split; [constructor | exact H].
  - simpl in H. destruct s as [|c s]; [discriminate|].
    destruct (p c) eqn:Hp; [|discriminate].
    exists [c], s. repeat split; [constructor; exact Hp | exact H].
  - simpl in H. apply IH1 in H. destruct H as (m1 & rest1 & -> & Hm1 & H).
    apply IH2 in H. destruct H as (m2 & rest & -> & Hm2 & H).
    exists (m1 ++ m2), rest. rewrite app_assoc, last_char_app.
    repeat split; [constructor; assumption | exact H].
  - simpl in H. destruct (mt r1 prev s k) as [y|] eqn:E.
    + injection H as ->. apply IH1 in E.
      destruct E as (m & rest & -> & Hm & Hk).
      exists m, rest. repeat split; [apply M_AltL; exact Hm | exact Hk].
    + apply IH2 in H. destruct H as (m & rest & -> & Hm & Hk).
      exists m, rest. repeat split; [apply M_AltR; exact Hm | exact Hk].
  - simpl in H. eapply star_loop_sound; eauto.
  - simpl in H.
    destruct (xorb (is_word_opt prev) (is_word_opt (hd_error s))) eqn:Hb;
      [|discriminate].
    exists [], s. repeat split; [constructor; exact Hb | exact H].
Qed.

(** Conversely, when the pattern has a match after which the
    continuation succeeds, the matcher succeeds. *)
Lemma mt_complete : forall r prev m rest,
  matches r prev m rest ->
  forall k, k (last_char prev m) rest <> None ->
  mt r prev (m ++ rest) k <> None.
Proof.
  induction r as [|p|r1 IH1 r2 IH2|r1 IH1 r2 IH2|r IH|];
    intros prev m rest Hm k Hk.
  - inversion Hm; subst. exact Hk.
  - inversion Hm as [|? c ? ? Hp| | | | | |]; subst. simpl. rewrite Hp. exact Hk.
  - inversion Hm; subst. simpl. rewrite <- app_assoc.
    apply IH1; [assumption|]. apply IH2; [assumption|].
    rewrite <- last_char_app. exact Hk.
  - simpl. destruct (mt r1 prev (m ++ rest) k) eqn:E; [discriminate|].
    inversion Hm; subst.
    + exfalso. eapply IH1; eauto.
    + eapply IH2; eauto.
  - simpl.
    assert (G : forall fuel, length (m ++ rest) <= fuel ->
                star_loop (mt r) fuel prev (m ++ rest) k <> None);
      [|apply G; lia].
    remember (Star r) as sr eqn:Hsr. revert k Hk.
    induction Hm; try discriminate; injection Hsr as ->; intros k Hk fuel Hf.
    + destruct fuel; simpl; [exact Hk|].
      destruct (mt r prev rest _); [discriminate | exact Hk].
    + destruct fuel as [|fuel].
      { destruct m1; [congruence | simpl in Hf; lia]. }
      simpl.
      destruct (mt r prev ((m1 ++ m2) ++ rest) _) eqn:E; [discriminate|].
      exfalso. revert E. rewrite <- app_assoc. apply IH; [assumption|].
      assert (Hlen : length (m2 ++ rest) < length (m1 ++ m2 ++ rest)).
      { rewrite (length_app m1). destruct m1; [congruence | simpl; lia]. }
      apply Nat.ltb_lt in Hlen as Hlt. rewrite Hlt.
      apply IHHm2; [reflexivity | |].
      * rewrite <- last_char_app. exact Hk.
      * rewrite <- app_assoc in Hf. lia.
  - inversion Hm as [| | | | | | |? ? Hb]; subst. simpl. rewrite Hb. exact Hk.
Qed.

End ReFacts.
(* ================================================================== *)
(** * Facts about [search] and [findall] *)

Module SearchFacts.
Import CharClass Re ReFacts.

Lemma match_here_sound : forall r prev s rest,
  match_here r prev s = Some rest ->
  exists m, s = m ++ rest /\ matches r prev m rest.
Proof.
  intros r prev s rest H. apply mt_sound in H.
  destruct H as (m & rest' & -> & Hm & Hk). injection Hk as ->.
  exists m. split; [reflexivity | exact Hm].
Qed.

Lemma match_here_complete : forall r prev m rest,
  matches r prev m rest -> match_here r prev (m ++ rest) <> None.
Proof.
  intros r prev m rest Hm. unfold match_here.
  apply mt_complete; [exact Hm | discriminate].
Qed.

Lemma search_at_eq : forall r prev i s,
  search_at r prev i s =
  match match_here r prev s with
  | Some rest => Some (i, i + (length s - length rest))
  | None =>
      match s with
      | [] => None
      | c :: s' => search_at r (Some c) (S i) s'
      end
  end.
Proof. intros r prev i [|c s]; reflexivity. Qed.

(** A search that succeeds returns the bounds of a match, and no match
    starts at the head of an earlier position. *)
Lemma search_at_some : forall r s prev i a b,
  search_at r prev i s = Some (a, b) ->
  exists pre m post,
    s = pre ++ m ++ post /\ a = i + length pre /\ b = a + length m
    /\ matches r (last_char prev pre) m post
    /\ match_here r (last_char prev pre) (m ++ post) = Some post
    /\ (forall p1 c p2, pre = p1 ++ c :: p2 ->
          match_here r (last_char prev p1) (c :: p2 ++ m ++ post) = None).
Proof.
  intros r s. induction s as [|c s IH]; intros prev i a b H;
    rewrite search_at_eq in H;
    destruct (match_here r prev _) as [rest|] eqn:E; try discriminate.
  - injection H as <- <-.
    destruct (match_here_sound _ _ _ E) as (m & Hs & Hm).
    symmetry in Hs. apply app_eq_nil in Hs. destruct Hs as [-> ->].
    exists [], [], []. simpl. repeat split; try lia; trivial.
    intros [|? ?] ? ? Hp; discriminate.
  - destruct (match_here_sound _ _ _ E) as (m & Hs & Hm).
    rewrite Hs in *. rewrite length_app in H.
    replace (length m + length rest - length rest) with (length m) in H
      by lia.
    injection H as <- <-.
    exists [], m, rest. simpl. repeat split; trivial; try lia.
    intros [|? ?] ? ? Hp; discriminate.
  - apply IH in H.
    destruct H as (pre & m & post & -> & -> & -> & Hm & Hh & Hleft).
    exists (c :: pre), m, post. rewrite last_char_cons. simpl.
    repeat split; trivial; try lia.
    intros [|c' p1] c2 p2 Hp; simpl in Hp; injection Hp as -> ->.
    + exact E.
    + rewrite last_char_cons. simpl. apply Hleft. reflexivity.
Qed.

Lemma search_at_none : forall r s prev i,
  search_at r prev i s = None ->
  forall pre rest, s = pre ++ rest ->
    match_here r (last_char prev pre) rest = None.
Proof.
  intros r s. induction s as [|c s IH]; intros prev i H pre rest Hs;
    rewrite search_at_eq in H;
    destruct (match_here r prev _) eqn:E; try discriminate.
  - symmetry in Hs. apply app_eq_nil in Hs. destruct Hs as [-> ->].
    exact E.
  - destruct pre as [|c' pre]; simpl in Hs.
    + subst rest. exact E.
    + injection Hs as <- ->. rewrite last_char_cons. eapply IH; eauto.
Qed.

(** [search] fails exactly when the pattern occurs nowhere. *)
Lemma search_none_iff : forall r s, search r s = None <-> ~ occurs r s.
Proof.
  intros r s. split.
  - intros H (pre & m & post & -> & Hm).
    apply (match_here_complete Hm).
    eapply search_at_none; [exact H | reflexivity].
  - intros Hno. destruct (search r s) as [[a b]|] eqn:E; [|reflexivity].
    exfalso. apply Hno. apply search_at_some in E.
    destruct E as (pre & m & post & -> & _ & _ & Hm & _).
    exists pre, m, post. split; [reflexivity | exact Hm].
Qed.

(** The positions a search returns lie inside the subject, in order. *)
Lemma search_bounds : forall r s a b,
  search r s = Some (a, b) -> a <= b /\ b <= length s.
Proof.
  intros r s a b H. apply search_at_some in H.
  destruct H as (pre & m & post & -> & -> & -> & _).
  rewrite !length_app. simpl. lia.
Qed.

(** Every text [findall] returns is a match of the pattern. *)
Lemma findall_go_matches : forall r fuel prev s tok,
  In tok (findall_go r fuel prev s) ->
  exists prev' rest', matches r prev' tok rest'.
Proof.
  intros r fuel. induction fuel as [|fuel IH]; intros prev s tok H;
    simpl in H; [contradiction|].
  destruct (match_here r prev s) as [rest|] eqn:E.
  - destruct (match_here_sound _ _ _ E) as (m & -> & Hm).
    assert (Hlen : length (m ++ rest) - length rest = length m)
      by (rewrite length_app; lia).
    rewrite Hlen in H. rewrite firstn_app, firstn_all, Nat.sub_diag in H.
    simpl in H. rewrite app_nil_r in H.
    destruct (length m) eqn:Hl.
    + destruct (m ++ rest) as [|c s'].
      * destruct H as [<-|[]]. eauto.
      * destruct H as [<-|H]; eauto.
    + destruct H as [<-|H]; eauto.
  - destruct s as [|c s']; [contradiction|]. eauto.
Qed.

Lemma findall_matches : forall r s tok,
  In tok (findall r s) -> exists prev rest, matches r prev tok rest.
Proof. intros r s tok H. eapply findall_go_matches; exact H. Qed.

End SearchFacts.

(* ================================================================== *)
(** * The fuel of the loops is enough *)

Module FuelFacts.
Import CharClass Re ReFacts SearchFacts.

(** The matcher uses its continuation only through its values. *)
Lemma star_loop_ext : forall r,
  (forall prev s k1 k2,
     (forall p s', k1 p s' = k2 p s') -> mt r prev s k1 = mt r prev s k2) ->
  forall fuel prev s k1 k2,
    (forall p s', k1 p s' = k2 p s') ->
    star_loop (mt r) fuel prev s k1 = star_loop (mt r) fuel prev s k2.
Proof.
  intros r IHr fuel. induction fuel as [|fuel IH]; intros prev s k1 k2 H.
  - simpl. apply H.
  - simpl. rewrite H.
    erewrite IHr; [reflexivity|].
    intros p s'. simpl. destruct (length s' <? length s); [|reflexivity].
    apply IH. exact H.
Qed.

Lemma mt_ext : forall r prev s k1 k2,
  (forall p s', k1 p s' = k2 p s') -> mt r prev s k1 = mt r prev s k2.
Proof.
  induction r as [|p|r1 IH1 r2 IH2|r1 IH1 r2 IH2|r IH|];
    intros prev s k1 k2 H; simpl.
  - apply H.
  - destruct s as [|c s]; [reflexivity|]. destruct (p c); [apply H|reflexivity].
  - apply IH1. intros p s'. apply IH2. exact H.
  - rewrite (IH1 prev s k1 k2 H), (IH2 prev s k1 k2 H). reflexivity.
  - apply star_loop_ext; assumption.
  - destruct (xorb _ _); [apply H|reflexivity].
Qed.

Lemma mt_dead_end : forall r prev s k,
  (forall p s', k p s' = None) -> mt r prev s k = None.
Proof.
  intros r prev s k H. destruct (mt r prev s k) as [x|] eqn:E; [|reflexivity].
  apply mt_sound in E. destruct E as (m & rest & _ & _ & Hk).
  rewrite H in Hk. discriminate.
Qed.

(** One unit of fuel for each character left is enough for the loop of a
    repetition: more fuel changes nothing. *)
Lemma star_loop_fuel : forall r fuel1 fuel2 prev s k,
  length s <= fuel1 -> length s <= fuel2 ->
  star_loop (mt r) fuel1 prev s k = star_loop (mt r) fuel2 prev s k.
Proof.
  intros r fuel1. induction fuel1 as [|fuel1 IH];
    intros fuel2 prev s k H1 H2.
  - destruct s; [|simpl in H1; lia].
    destruct fuel2 as [|fuel2]; [reflexivity|]. simpl.
    rewrite mt_dead_end; reflexivity.
  - destruct fuel2 as [|fuel2].
    + destruct s; [|simpl in H2; lia]. simpl.
      rewrite mt_dead_end; reflexivity.
    + simpl. erewrite mt_ext; [reflexivity|].
      intros p s'. simpl.
      destruct (length s' <? length s) eqn:E; [|reflexivity].
      apply Nat.ltb_lt in E. apply IH; lia.
Qed.

(** And so it is for [findall]: with more fuel than characters the scan
    reaches the end of the subject. *)
Lemma findall_go_fuel : forall r fuel1 fuel2 prev s,
  length s < fuel1 -> length s < fuel2 ->
  findall_go r fuel1 prev s = findall_go r fuel2 prev s.
Proof.
  intros r fuel1. induction fuel1 as [|fuel1 IH];
    intros fuel2 prev s H1 H2; [lia|].
  destruct fuel2 as [|fuel2]; [lia|]. simpl.
  destruct (match_here r prev s) as [rest|] eqn:E.
  - destruct (match_here_sound _ _ _ E) as (m & Hs & Hm).
    assert (Hlen : length s - length rest = length m)
      by (rewrite Hs, length_app; lia).
    assert (Hrest : length rest <= length s)
      by (rewrite Hs, length_app; lia).
    rewrite Hlen. destruct (length m) as [|n] eqn:En.
    + destruct s as [|c s']; [reflexivity|].
      f_equal. apply IH; simpl in *; lia.
    + f_equal. apply IH; lia.
  - destruct s as [|c s']; [reflexivity|]. apply IH; simpl in *; lia.
Qed.

End FuelFacts.

(* ================================================================== *)
(** * Facts about floats *)

Module F64Facts.
Import CharClass F64.
Local Open Scope Z_scope.

Lemma iter_pos_invariant : forall (A : Type) (P : A -> Prop) (f : A -> A),
  (forall x, P x -> P (f x)) ->
  forall n x, P x -> P (iter_pos f n x).
Proof.
  intros A P f Hf n. induction n as [n IH|n IH|]; intros x Hx; simpl; auto.
Qed.

Lemma shr_1_nonneg : forall mrs, 0 <= shr_m mrs -> 0 <= shr_m (shr_1 mrs).
Proof.
  intros [m r s] H. simpl in H. unfold shr_1.
  destruct m as [|[p|p|]|[p|p|]]; simpl; lia.
Qed.

Lemma shr_nonneg : forall mrs e n,
  0 <= shr_m mrs -> 0 <= shr_m (fst (shr mrs e n)).
Proof.
  intros mrs e n H. unfold shr. destruct n; simpl; trivial.
  apply iter_pos_invariant with (P := fun x => 0 <= shr_m x); trivial.
  apply shr_1_nonneg.
Qed.

Lemma shr_fexp_nonneg : forall m e l,
  0 <= m -> 0 <= shr_m (fst (shr_fexp prec emax m e l)).
Proof.
  intros m e l H. unfold shr_fexp. apply shr_nonneg.
  destruct l as [|[| |]]; exact H.
Qed.

Lemma round_nearest_even_nonneg : forall m l,
  0 <= m -> 0 <= round_nearest_even m l.
Proof.
  intros m l H. unfold round_nearest_even.
  destruct l as [|[| |]]; try destruct (Z.even m); lia.
Qed.

(** Rounding a non-negative mantissa with a clear sign bit gives a
    non-negative float, never a NaN. *)
Lemma binary_round_aux_nonneg : forall m e l,
  0 <= m -> nonneg (binary_round_aux prec emax false m e l) = true.
Proof.
  intros m e l H. unfold binary_round_aux.
  pose proof (shr_fexp_nonneg e l H) as H1.
  destruct (shr_fexp prec emax m e l) as [mrs' e'] eqn:E1. simpl in H1.
  pose proof (shr_fexp_nonneg e' loc_Exact
                (round_nearest_even_nonneg (loc_of_shr_record mrs') H1)) as H2.
  destruct (shr_fexp prec emax _ e' loc_Exact) as [mrs'' e''] eqn:E2.
  simpl in H2.
  destruct (shr_m mrs'') as [|p|p]; [reflexivity | | lia].
  destruct (e'' <=? emax - prec); reflexivity.
Qed.

Lemma of_ratio_nonneg : forall n d, nonneg (of_ratio n d) = true.
Proof.
  intros [|p|p] d; try reflexivity.
  unfold of_ratio, SFdiv.
  destruct (SFdiv_core_binary prec emax (Z.pos p) 0 (Z.pos d) 0)
    as [[mz ez] lz] eqn:E.
  apply binary_round_aux_nonneg.
  unfold SFdiv_core_binary in E.
  match type of E with
  | (let '(q, r) := Z.div_eucl ?a ?b in _) = _ =>
      pose proof (Z.div_eucl_eq a b) as Hq;
      pose proof (Z.mod_pos_bound a b) as Hr;
      assert (Ha : 0 <= a);
      [|unfold Z.modulo in Hr; destruct (Z.div_eucl a b) as [q r]]
  end.
  - destruct (0 - 0 - _); try lia. apply Z.shiftl_nonneg. lia.
  - injection E as <- _ _. specialize (Hq ltac:(lia)). nia.
Qed.

Lemma py_float_nonneg : forall s x, py_float s = Some x -> nonneg x = true.
Proof.
  intros s x H. unfold py_float in H.
  destruct (split_dot s) as [ip [fp|]];
    match type of H with (if ?b then _ else _) = _ => destruct b end;
    try discriminate; injection H as <-; apply of_ratio_nonneg.
Qed.

Lemma py_round_nonneg : forall x n,
  nonneg x = true -> nonneg (py_round x n) = true.
Proof.
  intros [s|s| |s m e] n H; simpl in *; trivial.
  destruct s; [discriminate|]. apply of_ratio_nonneg.
Qed.

End F64Facts.

(* ================================================================== *)
(** * The shape of what the patterns match *)

Module PatternFacts.
Import CharClass Re ReFacts SearchFacts F64 F64Facts Py Scilit Spec.

Lemma matches_chr : forall p prev m rest,
  matches (Chr p) prev m rest -> exists c, m = [c] /\ p c = true.
Proof.
  intros p prev m rest H. inversion H; subst. eauto.
Qed.

Lemma matches_star_chr : forall p prev m rest,
  matches (Star (Chr p)) prev m rest -> forallb p m = true.
Proof.
  intros p prev m rest H. remember (Star (Chr p)) as sr eqn:Hsr.
  induction H; try discriminate; injection Hsr as ->.
  - reflexivity.
  - apply matches_chr in H0. destruct H0 as (c & -> & Hc).
    simpl. rewrite Hc. apply IHmatches2. reflexivity.
Qed.

Lemma matches_plus_chr : forall p prev m rest,
  matches (Plus (Chr p)) prev m rest ->
  exists c m', m = c :: m' /\ p c = true /\ forallb p m' = true.
Proof.
  intros p prev m rest H. inversion H; subst.
  match goal with
  | H1 : matches (Chr p) _ _ _, H2 : matches (Star (Chr p)) _ _ _ |- _ =>
      apply matches_chr in H1; destruct H1 as (c & -> & Hc);
      apply matches_star_chr in H2
  end.
  exists c, m2. auto.
Qed.

Lemma matches_lit : forall a prev m rest,
  matches (Lit a) prev m rest -> m = [a].
Proof.
  intros a prev m rest H. apply matches_chr in H.
  destruct H as (c & -> & Hc). apply Ascii.eqb_eq in Hc. congruence.
Qed.

(** Inversion of a match of a concatenation, an alternative or the
    empty pattern. *)
Ltac inv_match :=
  match goal with
  | H : matches (Cat _ _) _ _ _ |- _ => inversion H; subst; clear H
  | H : matches (Alt _ _) _ _ _ |- _ => inversion H; subst; clear H
  | H : matches Eps _ _ _ |- _ => inversion H; subst; clear H
  | H : matches (Lit _) _ _ _ |- _ => apply matches_lit in H; subst
  | H : matches (Plus (Chr _)) _ _ _ |- _ =>
      apply matches_plus_chr in H;
      let c := fresh "c" in let ds := fresh "ds" in
      let Hc := fresh "Hc" in let Hds := fresh "Hds" in
      destruct H as (c & ds & -> & Hc & Hds)
  | H : matches (Chr _) _ _ _ |- _ =>
      apply matches_chr in H;
      let c := fresh "c" in let Hc := fresh "Hc" in
      destruct H as (c & -> & Hc)
  end.

(** A month token is ["20"], two digits, ["-"], two digits. *)
Lemma month_token_shape : forall prev m rest,
  matches month_re prev m rest -> is_month m = true.
Proof.
  intros prev m rest H.
  change month_re with
    (Cat (Lit "2") (Cat (Lit "0") (Cat Digit (Cat Digit
      (Cat (Lit "-") (Cat Digit Digit)))))) in H.
  unfold Digit in H. repeat inv_match. simpl.
  repeat match goal with Hc : is_digit _ = true |- _ => rewrite Hc; clear Hc end.
  reflexivity.
Qed.

Lemma digit_not_dot : forall c, is_digit c = true -> Ascii.eqb c "." = false.
Proof.
  intros c H. destruct (Ascii.eqb_spec c "."); [subst; discriminate | reflexivity].
Qed.

Lemma split_dot_digits : forall ds t,
  forallb is_digit ds = true ->
  split_dot (ds ++ t) = (ds ++ fst (split_dot t), snd (split_dot t)).
Proof.
  induction ds as [|d ds IH]; intros t H; simpl in *.
  - destruct (split_dot t); reflexivity.
  - apply andb_true_iff in H. destruct H as [Hd Hds].
    rewrite (digit_not_dot _ Hd), (IH t Hds). reflexivity.
Qed.

Lemma py_float_digits : forall c ds,
  is_digit c = true -> forallb is_digit ds = true ->
  exists x, py_float (c :: ds) = Some x.
Proof.
  intros c ds Hc Hds. unfold py_float.
  rewrite <- (app_nil_r (c :: ds)).
  rewrite split_dot_digits by (cbn [forallb]; rewrite Hc; exact Hds).
  cbn [split_dot fst snd]. rewrite !app_nil_r.
  unfold all_digits. cbn [forallb is_nil].
  rewrite Hc, Hds. cbn [andb negb]. eauto.
Qed.

Lemma py_float_digits_dot_digits : forall c ds c' ds',
  is_digit c = true -> forallb is_digit ds = true ->
  is_digit c' = true -> forallb is_digit ds' = true ->
  exists x, py_float ((c :: ds) ++ "."%char :: c' :: ds') = Some x.
Proof.
  intros c ds c' ds' Hc Hds Hc' Hds'. unfold py_float.
  rewrite split_dot_digits by (cbn [forallb]; rewrite Hc; exact Hds).
  cbn [split_dot Ascii.eqb Bool.eqb fst snd]. rewrite app_nil_r.
  unfold all_digits. cbn [forallb is_nil].
  rewrite Hc, Hds, Hc', Hds'. cbn [andb negb]. eauto.
Qed.

(** A value token is read by [float] without an error. *)
Lemma value_token_float : forall prev m rest,
  matches value_re prev m rest -> exists x, py_float m = Some x.
Proof.
  intros prev m rest H.
  change value_re with
    (Cat (Plus Digit) (Opt (Cat (Lit ".") (Plus Digit)))) in H.
  unfold Opt, Digit in H. repeat inv_match.
  - apply py_float_digits_dot_digits; assumption.
  - rewrite app_nil_r. apply py_float_digits; assumption.
Qed.

Lemma floats_total : forall vs,
  (forall v, In v vs -> exists x, py_float v = Some x) ->
  exists xs, floats vs = Ok xs /\ length xs = length vs
             /\ Forall (fun x => nonneg x = true) xs.
Proof.
  induction vs as [|v vs IH]; intros H.
  - exists []. simpl. auto.
  - destruct (H v (or_introl eq_refl)) as [x Hx].
    destruct IH as (xs & Hxs & Hlen & Hall).
    { intros v' Hv'. apply H. right. exact Hv'. }
    exists (x :: xs). simpl. rewrite Hx, Hxs. simpl.
    repeat split; [congruence|].
    constructor; [eapply py_float_nonneg; eauto | exact Hall].
Qed.

Lemma floats_findall_value : forall raw,
  exists xs, floats (findall value_re raw) = Ok xs
             /\ length xs = length (findall value_re raw)
             /\ Forall (fun x => nonneg x = true) xs.
Proof.
  intros raw. apply floats_total. intros v Hv.
  apply findall_matches in Hv. destruct Hv as (prev & rest & Hm).
  eapply value_token_float; eauto.
Qed.

End PatternFacts.

(* ================================================================== *)
(** * Facts about [parse_series] *)

Module SeriesFacts.
Import CharClass Re ReFacts SearchFacts F64 F64Facts Py Scilit Spec.
Import PatternFacts.

Lemma str_eqb_eq : forall a b, str_eqb a b = true <-> a = b.
Proof.
  induction a as [|x a IH]; intros [|y b]; simpl; split; intros H;
    try discriminate; try reflexivity.
  - apply andb_true_iff in H. destruct H as [Hx Ha].
    apply Ascii.eqb_eq in Hx. apply IH in Ha. congruence.
  - injection H as -> ->. rewrite Ascii.eqb_refl. simpl. apply IH. reflexivity.
Qed.

Lemma existsb_str_eqb : forall m seen,
  existsb (str_eqb m) seen = true <-> In m seen.
Proof.
  intros m seen. rewrite existsb_exists. split.
  - intros (x & Hx & He). apply str_eqb_eq in He. congruence.
  - intros H. exists m. split; [exact H | apply str_eqb_eq; reflexivity].
Qed.

(** The comprehension keeps the first occurrence of every text not seen
    before, and nothing else. *)
Lemma dedup_in : forall l seen x,
  In x (dedup seen l) <-> In x l /\ ~ In x seen.
Proof.
  induction l as [|m l IH]; intros seen x; simpl.
  - tauto.
  - destruct (existsb (str_eqb m) seen) eqn:E.
    + apply existsb_str_eqb in E. rewrite IH. split.
      * tauto.
      * intros [[->|H] Hn]; tauto.
    + assert (Hm : ~ In m seen).
      { intros H. apply existsb_str_eqb in H. congruence. }
      simpl. rewrite IH. simpl. split.
      * intros [->|[H Hn]]; [tauto|]. split; [tauto|]. intros Hs. tauto.
      * intros [[->|H] Hn]; [tauto|].
        destruct (str_eq_dec m x) as [->|Hne]; [tauto|]. right. tauto.
Qed.

Lemma dedup_NoDup : forall l seen, NoDup (dedup seen l).
Proof.
  induction l as [|m l IH]; intros seen; simpl.
  - constructor.
  - destruct (existsb (str_eqb m) seen); [apply IH|].
    constructor; [|apply IH].
    rewrite dedup_in. simpl. tauto.
Qed.

Lemma dedup_length : forall l, length (dedup [] l) = distinct_count l.
Proof.
  intros l. unfold distinct_count. apply Nat.le_antisymm.
  - apply NoDup_incl_length; [apply dedup_NoDup|].
    intros x Hx. apply dedup_in in Hx. apply nodup_In. tauto.
  - apply NoDup_incl_length; [apply NoDup_nodup|].
    intros x Hx. apply nodup_In in Hx. apply dedup_in. simpl. tauto.
Qed.

Lemma build_series_length : forall months values n,
  length (build_series months values n) = n.
Proof.
  intros. unfold build_series. rewrite length_map, length_seq. reflexivity.
Qed.

Lemma build_series_in : forall months values n pt,
  n <= length months -> n <= length values ->
  In pt (build_series months values n) ->
  In (month pt) months
  /\ exists v, In v values /\ value pt = py_round v 4.
Proof.
  intros months values n pt Hm Hv H. unfold build_series in H.
  apply in_map_iff in H. destruct H as (i & <- & Hi).
  apply in_seq in Hi. simpl. split.
  - apply nth_In. lia.
  - exists (nth i values S754_nan). split; [apply nth_In; lia | reflexivity].
Qed.

(** What [parse_series] returns once the phrase and the array are found. *)
Lemma parse_series_found : forall html i j a b,
  search mcm_label html = Some (i, j) ->
  search array_re (slice html i (i + window_size)) = Some (a, b) ->
  exists values,
    floats (findall value_re (slice (slice html i (i + window_size)) a b))
      = Ok values
    /\ length values
       = length (findall value_re (slice (slice html i (i + window_size)) a b))
    /\ Forall (fun x => nonneg x = true) values
    /\ parse_series html
       = Ok (build_series (dedup [] (findall month_re html)) values
               (Nat.min (length (dedup [] (findall month_re html)))
                        (length values))).
Proof.
  intros html i j a b Hi Ha.
  destruct (floats_findall_value (slice (slice html i (i + window_size)) a b))
    as (values & Hf & Hlen & Hnn).
  exists values. repeat split; trivial.
  unfold parse_series. rewrite Hi, Ha, Hf. simpl.
  destruct (Nat.min _ _ =? 0) eqn:E; [|reflexivity].
  apply Nat.eqb_eq in E. rewrite E. reflexivity.
Qed.

(** [parse_series] never raises, and returns the empty list unless the
    phrase and the array are found. *)
Lemma parse_series_cases : forall html,
  parse_series html = Ok []
  \/ exists i j a b,
       search mcm_label html = Some (i, j)
       /\ search array_re (slice html i (i + window_size)) = Some (a, b).
Proof.
  intros html. unfold parse_series.
  destruct (search mcm_label html) as [[i j]|] eqn:Hi; [|left; reflexivity].
  destruct (search array_re (slice html i (i + window_size)))
    as [[a b]|] eqn:Ha; [|left; reflexivity].
  right. exists i, j, a, b. split; [reflexivity | exact Ha].
Qed.

Lemma parse_series_total : forall html, exists l, parse_series html = Ok l.
Proof.
  intros html. destruct (parse_series_cases html) as [H|(i & j & a & b & Hi & Ha)].
  - eauto.
  - destruct (parse_series_found _ Hi Ha) as (values & _ & _ & _ & H). eauto.
Qed.

End SeriesFacts.

(* ================================================================== *)
(** * Properties of [parse_series] *)

Module SeriesProps.
Import CharClass Re ReFacts SearchFacts F64 F64Facts Py Scilit Spec.
Import PatternFacts SeriesFacts.

Lemma map_nth_seq : forall (A : Type) (d : A) (l : list A) n,
  n <= length l -> map (fun i => nth i l d) (seq 0 n) = firstn n l.
Proof.
  intros A d l. induction l as [|x l IH]; intros n Hn.
  - simpl in Hn. replace n with 0 by lia. reflexivity.
  - destruct n as [|n]; [reflexivity|].
    simpl in Hn. simpl. f_equal.
    rewrite <- seq_shift, map_map. apply IH. lia.
Qed.

Lemma build_series_months : forall months values n,
  n <= length months ->
  map month (build_series months values n) = firstn n months.
Proof.
  intros months values n Hn. unfold build_series. rewrite map_map. simpl.
  apply map_nth_seq. exact Hn.
Qed.

Lemma build_series_values : forall months values n,
  n <= length values ->
  map value (build_series months values n)
  = map (fun v => py_round v 4) (firstn n values).
Proof.
  intros months values n Hn. unfold build_series.
  rewrite <- (@map_nth_seq float S754_nan values n Hn), !map_map. reflexivity.
Qed.

(** C2.  When the phrase is found and a bracketed array is found in the
    window of 50000 characters that starts at it, the series has as many
    points as the smaller of the number of distinct month tokens of the
    whole page and the number of numeric tokens of the array; its months
    are the first distinct months and its values the rounded first
    values, so what exceeds the shorter list is dropped. *)
Theorem series_length_is_min : forall html i j a b,
  search mcm_label html = Some (i, j) ->
  search array_re (slice html i (i + window_size)) = Some (a, b) ->
  let raw := slice (slice html i (i + window_size)) a b in
  exists series values,
    parse_series html = Ok series
    /\ length series
       = Nat.min (distinct_count (findall month_re html))
                 (length (findall value_re raw))
    /\ floats (findall value_re raw) = Ok values
    /\ map month series
       = firstn (length series) (dedup [] (findall month_re html))
    /\ map value series
       = map (fun v => py_round v 4) (firstn (length series) values).
Proof.
  intros html i j a b Hi Ha raw.
  destruct (parse_series_found _ Hi Ha) as (values & Hf & Hlen & _ & Hp).
  fold raw in Hf, Hlen.
  eexists. exists values. split; [exact Hp|].
  rewrite build_series_length, <- Hlen, <- dedup_length.
  repeat split; trivial.
  - apply build_series_months. apply Nat.le_min_l.
  - apply build_series_values. apply Nat.le_min_r.
Qed.

Lemma series_length_is_min_witness :
  let html := page_repeated_month in
  let raw := slice (slice html 4 (4 + window_size)) 61 79 in
  exists series values,
    parse_series html = Ok series
    /\ length series
       = Nat.min (distinct_count (findall month_re html))
                 (length (findall value_re raw))
    /\ floats (findall value_re raw) = Ok values
    /\ map month series
       = firstn (length series) (dedup [] (findall month_re html))
    /\ map value series
       = map (fun v => py_round v 4) (firstn (length series) values).
Proof.
  apply (@series_length_is_min page_repeated_month 4 27 61 79);
    vm_compute; reflexivity.
Defined.

(** C7.  A page that holds the phrase, whose month tokens are 2024-01,
    2024-02, 2024-01 and whose first bracketed array after the phrase is
    [[0.10, 0.20, 0.30]] gives the two points (2024-01, 0.1) and
    (2024-02, 0.2): the repeated month is removed before pairing and the
    third value is dropped. *)
Theorem repeated_month_scenario : forall html i j a b,
  search mcm_label html = Some (i, j) ->
  search array_re (slice html i (i + window_size)) = Some (a, b) ->
  slice (slice html i (i + window_size)) a b = lit "[0.10, 0.20, 0.30]" ->
  findall month_re html = [lit "2024-01"; lit "2024-02"; lit "2024-01"] ->
  parse_series html
  = Ok [ {| month := lit "2024-01"; value := f_0_1 |};
         {| month := lit "2024-02"; value := f_0_2 |} ].
Proof.
  intros html i j a b Hi Ha Hraw Hmonths.
  unfold parse_series. rewrite Hi, Ha, Hraw, Hmonths.
  vm_compute. reflexivity.
Qed.

Lemma repeated_month_scenario_witness :
  parse_series page_repeated_month
  = Ok [ {| month := lit "2024-01"; value := f_0_1 |};
         {| month := lit "2024-02"; value := f_0_2 |} ].
Proof.
  apply (@repeated_month_scenario page_repeated_month 4 27 61 79);
    vm_compute; reflexivity.
Defined.

(** C9.  Every point of a returned series has a value that is not
    negative and a month of the form 20YY-MM with any two digits for
    MM; the month number is not checked, and a page with the token
    2024-99 gives a point of that month. *)
Theorem series_points_shape :
  (forall html series pt,
     parse_series html = Ok series -> In pt series ->
     nonneg (value pt) = true /\ is_month (month pt) = true)
  /\ exists series pt,
       parse_series page_month_99 = Ok series /\ In pt series
       /\ month pt = lit "2024-99".
Proof.
  split.
  - intros html series pt Hs Hin.
    destruct (parse_series_cases html) as [H0|(i & j & a & b & Hi & Ha)].
    + rewrite H0 in Hs. injection Hs as <-. contradiction.
    + destruct (parse_series_found _ Hi Ha) as (values & _ & _ & Hnn & Hp).
      rewrite Hp in Hs. injection Hs as <-.
      apply build_series_in in Hin;
        [|apply Nat.le_min_l|apply Nat.le_min_r].
      destruct Hin as (Hm & v & Hv & ->). split.
      * apply py_round_nonneg. rewrite Forall_forall in Hnn. auto.
      * apply dedup_in in Hm. destruct Hm as [Hm _].
        apply findall_matches in Hm. destruct Hm as (prev & rest & Hm).
        eapply month_token_shape; eauto.
  - eexists. eexists. split; [vm_compute; reflexivity|].
    split; [left; reflexivity | reflexivity].
Qed.

End SeriesProps.

(* ================================================================== *)
(** * The phrase that opens the series *)

Module PhraseProps.
Import CharClass Re ReFacts SearchFacts F64 F64Facts Py Scilit Spec.
Import PatternFacts SeriesFacts.

(** A word of a pattern under IGNORECASE matches the texts that are the
    word, letter case apart. *)
Lemma matches_word_ci : forall w prev m rest,
  matches (Seq (map LitI w)) prev m rest -> map lower m = map lower w.
Proof.
  induction w as [|c w IH]; intros prev m rest H.
  - inversion H; subst. reflexivity.
  - destruct w as [|c' w].
    + simpl in H. apply matches_chr in H. destruct H as (x & -> & Hx).
      apply Ascii.eqb_eq in Hx. simpl. congruence.
    + change (Seq (map LitI (c :: c' :: w)))
        with (Cat (LitI c) (Seq (map LitI (c' :: w)))) in H.
      inversion H as [| |? ? ? m1 m2 ? H1 H2| | | | |]; subst.
      apply matches_chr in H1. destruct H1 as (x & -> & Hx).
      apply Ascii.eqb_eq in Hx. apply IH in H2.
      simpl in *. congruence.
Qed.

Lemma matches_spaces : forall prev m rest,
  matches (Plus Space) prev m rest -> spaces m.
Proof.
  intros prev m rest H. apply matches_plus_chr in H.
  destruct H as (c & m' & -> & Hc & Hm'). split; [discriminate|].
  simpl. rewrite Hc. exact Hm'.
Qed.

(** What the phrase pattern matches: the three words, letter case
    apart, with runs of whitespace between them. *)
Lemma matches_mcm_label : forall prev m rest,
  matches mcm_label prev m rest ->
  exists a s1 b s2 c,
    m = a ++ s1 ++ b ++ s2 ++ c
    /\ eq_ci a "Monthly" /\ spaces s1 /\ eq_ci b "Citation"
    /\ spaces s2 /\ eq_ci c "Metric".
Proof.
  intros prev m rest H.
  change mcm_label with
    (Cat (WordI "Monthly") (Cat (Plus Space) (Cat (WordI "Citation")
      (Cat (Plus Space) (WordI "Metric"))))) in H.
  inversion H as [| |? ? ? a m1 ? Ha H1| | | | |]; subst; clear H.
  inversion H1 as [| |? ? ? s1 m2 ? Hs1 H2| | | | |]; subst; clear H1.
  inversion H2 as [| |? ? ? b m3 ? Hb H3| | | | |]; subst; clear H2.
  inversion H3 as [| |? ? ? s2 c ? Hs2 Hc| | | | |]; subst; clear H3.
  exists a, s1, b, s2, c. split; [reflexivity|].
  repeat split;
    first [ eapply matches_word_ci; eassumption
          | eapply matches_spaces; eassumption ].
Qed.


(** [starts_with_ci] and [contains_ci] decide what their names say. *)
Lemma starts_with_ci_sound : forall p s,
  starts_with_ci p s = true ->
  exists m post, s = m ++ post /\ map lower m = map lower p.
Proof.
  induction p as [|a p IH]; intros s H.
  - exists [], s. split; reflexivity.
  - destruct s as [|c s]; [discriminate|]. simpl in H.
    apply andb_true_iff in H. destruct H as [Hc Hs].
    apply Ascii.eqb_eq in Hc. apply IH in Hs.
    destruct Hs as (m & post & -> & Hm).
    exists (c :: m), post. simpl. split; congruence.
Qed.

Lemma starts_with_ci_complete : forall m p post,
  map lower m = map lower p -> starts_with_ci p (m ++ post) = true.
Proof.
  induction m as [|c m IH]; intros [|a p] post H; try discriminate.
  - reflexivity.
  - simpl in *. injection H as Hc Hm. rewrite Hc, Ascii.eqb_refl. simpl.
    apply IH. exact Hm.
Qed.

(** [contains_ci] decides the occurrence of the literal phrase. *)
Lemma contains_ci_iff : forall p s,
  contains_ci p s = true <->
  exists pre m post, s = pre ++ m ++ post /\ map lower m = map lower p.
Proof.
  intros p s. split.
  - induction s as [|c s IH]; simpl; intros H;
      apply orb_true_iff in H; destruct H as [H|H]; try discriminate.
    + apply starts_with_ci_sound in H. destruct H as (m & post & Hs & Hm).
      exists [], m, post. auto.
    + apply starts_with_ci_sound in H. destruct H as (m & post & Hs & Hm).
      exists [], m, post. auto.
    + apply IH in H. destruct H as (pre & m & post & -> & Hm).
      exists (c :: pre), m, post. auto.
  - intros (pre & m & post & -> & Hm).
    induction pre as [|c pre IH].
    + destruct (m ++ post) eqn:E; simpl; apply orb_true_iff; left;
        rewrite <- E; apply starts_with_ci_complete; exact Hm.
    + simpl. apply orb_true_iff. right. exact IH.
Qed.



End PhraseProps.

(* ================================================================== *)
(** * Properties of [parse_number_near_label] *)

Module NumberProps.
Import CharClass Re ReFacts SearchFacts F64 F64Facts Py Scilit Spec.
Import PatternFacts SeriesFacts PhraseProps.

(** Case analysis over the 256 characters. *)
Ltac by_cases_on c :=
  destruct c as [[] [] [] [] [] [] [] []];
  try discriminate; repeat split; reflexivity.

Lemma lower_h_not_digit : forall c,
  Ascii.eqb (lower c) (lower "h") = true -> is_digit c = false.
Proof. intros c. by_cases_on c. Qed.

Lemma lower_i_not_number : forall c,
  Ascii.eqb (lower c) (lower "i") = true ->
  is_digit c = false /\ (Ascii.eqb c "." || Ascii.eqb c ",") = false.
Proof. intros c. by_cases_on c. Qed.

Lemma separator_not_number : forall c,
  (Ascii.eqb c "-" || is_space c) = true ->
  is_digit c = false /\ (Ascii.eqb c "." || Ascii.eqb c ",") = false.
Proof. intros c. by_cases_on c. Qed.

(** The label pattern matches an [h], the digit 5, and then a character
    that is neither a digit nor a separator of the number grammar. *)
Lemma matches_h5_label : forall prev m rest,
  matches h5_label prev m rest ->
  exists h c0 t,
    m = h :: "5"%char :: c0 :: t
    /\ is_digit h = false /\ is_digit c0 = false
    /\ (Ascii.eqb c0 "." || Ascii.eqb c0 ",") = false.
Proof.
  intros prev m rest H.
  change h5_label with
    (Cat WordB (Cat (LitI "h") (Cat (Lit "5")
      (Cat (Opt (Chr (fun c => Ascii.eqb c "-" || is_space c)))
        (Cat (Cat (LitI "i") (WordI "ndex")) WordB))))) in H.
  inversion H as [| |? ? ? m0 m1 ? H0 H1| | | | |]; subst; clear H.
  inversion H0; subst; clear H0.
  inversion H1 as [| |? ? ? mh m2 ? Hh H2| | | | |]; subst; clear H1.
  apply matches_chr in Hh. destruct Hh as (h & -> & Hh).
  inversion H2 as [| |? ? ? m5 m3 ? H5 H3| | | | |]; subst; clear H2.
  apply matches_lit in H5. subst m5.
  inversion H3 as [| |? ? ? ms m4 ? Hs H4| | | | |]; subst; clear H3.
  inversion H4 as [| |? ? ? mi m6 ? Hi H6| | | | |]; subst; clear H4.
  inversion Hi as [| |? ? ? m7 m8 ? Hi1 Hi2| | | | |]; subst; clear Hi.
  apply matches_chr in Hi1. destruct Hi1 as (ci & -> & Hci).
  apply lower_h_not_digit in Hh. apply lower_i_not_number in Hci.
  unfold Opt in Hs.
  inversion Hs as [| | |? ? ? ? ? Hc|? ? ? ? ? He| | |]; subst; clear Hs.
  - apply matches_chr in Hc. destruct Hc as (c & -> & Hc).
    apply separator_not_number in Hc.
    exists h, c, (([ci] ++ m8) ++ m6). simpl. tauto.
  - inversion He; subst.
    exists h, ci, (m8 ++ m6). simpl. tauto.
Qed.

(** The number pattern needs a digit at the head. *)
Lemma number_needs_digit : forall prev c s,
  is_digit c = false -> match_here number_re prev (c :: s) = None.
Proof.
  intros prev c s H. unfold match_here, number_re, Seq, Digit.
  cbn [mt]. rewrite H. reflexivity.
Qed.

(** A [5] followed by a character that is no digit and no separator is
    matched alone. *)
Lemma number_at_lone_5 : forall prev c0 s,
  is_digit c0 = false ->
  (Ascii.eqb c0 "." || Ascii.eqb c0 ",") = false ->
  match_here number_re prev ("5"%char :: c0 :: s) = Some (c0 :: s).
Proof.
  intros prev c0 s Hd Hs.
  unfold match_here, number_re, Seq, Opt, Plus, Digit, Sep.
  cbn [mt star_loop length]. change (is_digit "5") with true.
  cbn iota. rewrite Hd, Hs. reflexivity.
Qed.

Lemma search_at_skip : forall r pre s prev i,
  (forall p c t, match_here r p (c :: t) = None \/ ~ In c pre) ->
  search_at r prev i (pre ++ s)
  = search_at r (last_char prev pre) (i + length pre) s.
Proof.
  intros r pre. induction pre as [|c pre IH]; intros s prev i H.
  - simpl. rewrite Nat.add_0_r. reflexivity.
  - rewrite search_at_eq. simpl app.
    destruct (H prev c (pre ++ s)) as [E|E]; [|exfalso; apply E; left; reflexivity].
    rewrite E, IH, last_char_cons.
    + simpl. f_equal. lia.
    + intros p c' t. destruct (H p c' t) as [G|G]; [left; exact G|].
      right. intros Hin. apply G. right. exact Hin.
Qed.

Lemma search_number_skip : forall pre s prev i,
  forallb (fun c => negb (is_digit c)) pre = true ->
  search_at number_re prev i (pre ++ s)
  = search_at number_re (last_char prev pre) (i + length pre) s.
Proof.
  intros pre s prev i H. apply search_at_skip. intros p c t.
  destruct (is_digit c) eqn:E.
  - right. intros Hin. rewrite forallb_forall in H. apply H in Hin.
    rewrite E in Hin. discriminate.
  - left. apply number_needs_digit. exact E.
Qed.

(** The window of [parse_number_near_label] around a match. *)
Lemma chunk_around : forall (pre m post : str) k n,
  slice (pre ++ m ++ post) (Nat.max (length pre - k) 0)
        (Nat.min (length pre + length m + n) (length (pre ++ m ++ post)))
  = skipn (length pre - k) pre ++ m ++ firstn n post.
Proof.
  intros pre m post k n. unfold slice. rewrite Nat.max_0_r.
  rewrite !length_app.
  rewrite skipn_app.
  replace (length pre - k - length pre) with 0 by lia. simpl skipn at 2.
  rewrite firstn_app, length_skipn.
  rewrite (@firstn_all2 _ _ (skipn (length pre - k) pre))
    by (rewrite length_skipn; lia).
  f_equal.
  rewrite firstn_app, firstn_all2 by lia. f_equal.
  destruct (Nat.le_ge_cases n (length post)) as [Hn|Hn].
  - f_equal. lia.
  - rewrite !firstn_all2 by lia. reflexivity.
Qed.

Lemma parse_number_near_label_eq : forall html label_regex,
  parse_number_near_label html label_regex
  = match search label_regex html with
    | None => None
    | Some (i, j) => first_number (label_window html i j)
    end.
Proof. reflexivity. Qed.

(** C8.  The number returned is the first match of the number grammar
    in the window, wherever it lies.  When the h5-index label matches and
    the up to 200 characters before the match hold no digit, the result
    is the integer 5, the digit of the label itself, whatever follows;
    and a number that stands before the label is returned instead of the
    one after it. *)
Theorem h5_label_digit_wins :
  (forall html label_regex i j,
     search label_regex html = Some (i, j) ->
     parse_number_near_label html label_regex
     = first_number (label_window html i j))
  /\ (forall html i j,
        search h5_label html = Some (i, j) ->
        forallb (fun c => negb (is_digit c)) (slice html (i - 200) i) = true ->
        parse_number_near_label html h5_label = Some (PInt 5))
  /\ parse_number_near_label (lit "<td>h5-index</td><td>42</td>") h5_label
     = Some (PInt 5)
  /\ parse_number_near_label (lit "17 citations; h5-index: 3") h5_label
     = Some (PInt 17).
Proof.
  split; [|split; [|split; vm_compute; reflexivity]].
  { intros html label_regex i j H.
    rewrite parse_number_near_label_eq, H. reflexivity. }
  intros html i j Hsearch Hnodigit.
  rewrite parse_number_near_label_eq, Hsearch.
  apply search_at_some in Hsearch.
  destruct Hsearch as (pre & m & post & -> & -> & -> & Hm & _).
  apply matches_h5_label in Hm.
  destruct Hm as (h & c0 & t & -> & Hh & Hc0 & Hsep).
  unfold label_window. simpl Nat.add. rewrite chunk_around.
  assert (Hpre : slice (pre ++ (h :: "5"%char :: c0 :: t) ++ post)
                   (length pre - 200) (length pre)
                 = skipn (length pre - 200) pre).
  { unfold slice. rewrite skipn_app.
    replace (length pre - 200 - length pre) with 0 by lia. simpl skipn at 2.
    rewrite firstn_app, length_skipn.
    replace (length pre - (length pre - 200)
             - (length pre - (length pre - 200))) with 0 by lia.
    rewrite firstn_all2 by (rewrite length_skipn; lia).
    simpl. apply app_nil_r. }
  simpl Nat.add in Hnodigit. rewrite Hpre in Hnodigit.
  set (pre' := skipn (length pre - 200) pre) in *.
  set (post' := firstn 400 post).
  unfold first_number, search.
  rewrite search_number_skip by exact Hnodigit.
  rewrite search_at_eq.
  change ((h :: "5"%char :: c0 :: t) ++ post')
    with (h :: "5"%char :: c0 :: t ++ post').
  rewrite number_needs_digit by exact Hh.
  rewrite search_at_eq, number_at_lone_5 by assumption.
  replace (length ("5"%char :: c0 :: t ++ post') - length (c0 :: t ++ post'))
    with 1 by (cbn [length]; lia).
  replace (pre' ++ h :: "5"%char :: c0 :: t ++ post')
    with ((pre' ++ [h]) ++ ["5"%char] ++ c0 :: t ++ post')
    by (rewrite <- app_assoc; reflexivity).
  replace (S (0 + length pre')) with (length (pre' ++ [h]))
    by (rewrite length_app; simpl; lia).
  change 1 with (length ["5"%char]).
  rewrite slice_app. vm_compute. reflexivity.
Qed.

End NumberProps.

(* ================================================================== *)
(** * Properties of [main] *)

Module MainProps.
Import CharClass Re ReFacts SearchFacts F64 F64Facts Py Json Scilit Spec.
Import PatternFacts SeriesFacts.

Lemma bind_ok : forall (A B : Type) (m : result A) (f : A -> result B) b,
  bind m f = Ok b -> exists a, m = Ok a /\ f a = Ok b.
Proof.
  intros A B [a|e] f b H; simpl in H; [eauto | discriminate].
Qed.

(** A run writes exactly when the body of the [try] ends normally. *)
Lemma main_ok : forall env w bytes,
  main_try env (load_old env w) = Ok bytes ->
  main env w = {| out_json := Some bytes; stdout := stdout w ++ [ok_line] |}.
Proof. intros env w bytes H. unfold main. rewrite H. reflexivity. Qed.

Lemma main_raise : forall env w e,
  main_try env (load_old env w) = Raise e ->
  main env w
  = {| out_json := out_json w; stdout := stdout w ++ [error_line env e] |}.
Proof. intros env w e H. unfold main. rewrite H. reflexivity. Qed.

Lemma main_try_ok : forall env old html payload,
  fetch_html env SCILIT_URL = Ok html ->
  build_payload env old html = Ok payload ->
  main_try env old = Ok (encode_utf8 (json_dumps env payload)).
Proof.
  intros env old html payload Hf Hp. unfold main_try.
  rewrite Hf. simpl. rewrite Hp. reflexivity.
Qed.

(** The payload of a run that builds one. *)
Lemma build_payload_ok : forall env old html payload,
  build_payload env old html = Ok payload ->
  exists new,
    parse_series html = Ok new
    /\ payload
       = VDict [(lit "source", VStr SCILIT_URL);
                (lit "updated_at", VStr (utc_today env));
                (lit "h5_index",
                 scalar_entry (parse_number_near_label html h5_label)
                              "h5_index" old);
                (lit "mcm",
                 scalar_entry (parse_number_near_label html mcm_label)
                              "mcm" old);
                (lit "series", written_series old new)].
Proof.
  intros env old html payload H. unfold build_payload in H.
  apply bind_ok in H. destruct H as (new & Hnew & H).
  exists new. split; [exact Hnew|].
  apply bind_ok in H. destruct H as (series & Hseries & H).
  apply bind_ok in H. destruct H as (h5 & Hh5 & H).
  apply bind_ok in H. destruct H as (m & Hm & H).
  injection H as <-.
  assert (Hs : series = written_series old new).
  { destruct new as [|p new]; [|injection Hseries as <-; reflexivity].
    apply bind_ok in Hseries. destruct Hseries as (s & Hs & Hseries).
    destruct old as [| | | | | |d]; try discriminate.
    assert (Es : s = match assoc (lit "series") d with
                     | Some v => v
                     | None => VNone
                     end) by (unfold py_get in Hs; congruence).
    subst s. clear Hs.
    unfold written_series, field. unfold py_getitem in Hseries.
    destruct (assoc (lit "series") d) as [[| | | | |l|]|];
      cbn [is_list] in Hseries; congruence. }
  assert (Hscalar : forall parsed key v,
            match parsed with
            | Some n => Ok (py_of_num n)
            | None => py_get old (lit key)
            end = Ok v -> v = scalar_entry parsed key old).
  { intros [n|] key v Hv; unfold scalar_entry; [congruence|].
    destruct old; try discriminate. unfold py_get in Hv. unfold field.
    congruence. }
  apply Hscalar in Hh5. apply Hscalar in Hm. subst. reflexivity.
Qed.

(** With a [dict] for the old snapshot the payload is always built. *)
Lemma build_payload_dict : forall env d html,
  exists payload, build_payload env (VDict d) html = Ok payload.
Proof.
  intros env d html. unfold build_payload.
  destruct (parse_series_total html) as (new & ->). cbn [bind].
  assert (Hs : exists series,
            match new with
            | [] =>
                s <- py_get (VDict d) (lit "series") ;;
                (if is_list s then py_getitem (VDict d) (lit "series")
                 else Ok (VList []))
            | _ :: _ => Ok (VList (map py_of_point new))
            end = Ok series).
  { destruct new; [|eauto]. unfold py_get, py_getitem. cbn [bind].
    destruct (assoc (lit "series") d) as [[| | | | |l|]|];
      cbn [is_list]; eauto. }
  destruct Hs as (series & ->). unfold py_get. cbn [bind].
  destruct (parse_number_near_label html h5_label);
    destruct (parse_number_near_label html mcm_label); cbn [bind]; eauto.
Qed.

End MainProps.

(* ================================================================== *)
(** * The run as a whole *)

Module RunProps.
Import CharClass Re ReFacts SearchFacts F64 F64Facts Py Json Scilit Spec.
Import PatternFacts SeriesFacts MainProps.

Lemma fetch_html_raise : forall env e,
  http_get env SCILIT_URL headers 30 = Raise e ->
  fetch_html env SCILIT_URL = Raise e.
Proof. intros env e H. unfold fetch_html. rewrite H. reflexivity. Qed.

Lemma fetch_html_status : forall env r,
  http_get env SCILIT_URL headers 30 = Ok r ->
  400 <= status_code r < 600 ->
  fetch_html env SCILIT_URL = Raise (HTTPError (status_code r)).
Proof.
  intros env r H [Hlo Hhi]. unfold fetch_html, raise_for_status.
  rewrite H. cbn [bind].
  apply Nat.leb_le in Hlo. apply Nat.ltb_lt in Hhi. rewrite Hlo, Hhi.
  reflexivity.
Qed.

Lemma main_try_fetch_raise : forall env old e,
  fetch_html env SCILIT_URL = Raise e -> main_try env old = Raise e.
Proof. intros env old e H. unfold main_try. rewrite H. reflexivity. Qed.

(** C1.  When the request raises (a network error), or the answer has
    an error status (an HTTP error), the run ends normally, the output
    file is what it was, and one error line is printed; and so it is
    for every exception raised in the body of the [try], from the
    fetch to the serialization. *)
Theorem failed_run_keeps_file : forall env w,
  (forall e,
     http_get env SCILIT_URL headers 30 = Raise e ->
     main env w
     = {| out_json := out_json w;
          stdout := stdout w ++ [error_line env e] |})
  /\ (forall r,
        http_get env SCILIT_URL headers 30 = Ok r ->
        400 <= status_code r < 600 ->
        main env w
        = {| out_json := out_json w;
             stdout := stdout w
                       ++ [error_line env (HTTPError (status_code r))] |})
  /\ (forall e,
        main_try env (load_old env w) = Raise e ->
        main env w
        = {| out_json := out_json w;
             stdout := stdout w ++ [error_line env e] |}).
Proof.
  intros env w. split; [|split].
  - intros e H. apply main_raise, main_try_fetch_raise, fetch_html_raise, H.
  - intros r H Hs. apply main_raise, main_try_fetch_raise.
    apply fetch_html_status; assumption.
  - intros e H. apply main_raise, H.
Qed.

(** The scenario of the specification: the old snapshot is on disk and
    the request fails. *)
Lemma failed_run_keeps_file_witness :
  let e := RequestException (lit "timed out") in
  let env := sample_env (Raise e) (Some scenario_snapshot) in
  main env scenario_world
  = {| out_json := Some (encode_utf8 scenario_text);
       stdout := [error_line env e] |}.
Proof.
  intros e env.
  exact (proj1 (failed_run_keeps_file env scenario_world) e eq_refl).
Defined.







(** C3.  The two examples of the specification, as the code reads
    them: [1,276] becomes the float 1.276, because the comma is turned
    into the decimal point, and [12.3] becomes the integer 123, because
    the point is dropped. *)
Theorem number_normalization_on_examples :
  parse_number_near_label
    (lit "Monthly Citation Metric citations: 1,276 total") mcm_label
  = Some (PFloat f_1_276)
  /\ parse_number_near_label
       (lit "Monthly Citation Metric index: 12.3") mcm_label
     = Some (PInt 123)
  /\ first_number (lit "citations: 1,276 total")
     = Some (PFloat f_1_276)
  /\ first_number (lit "index: 12.3") = Some (PInt 123).
Proof. repeat split; vm_compute; reflexivity. Qed.

End RunProps.

(* ================================================================== *)
(** * Further properties *)

Module MoreProps.
Import CharClass Re ReFacts SearchFacts F64 F64Facts Py Json Scilit Spec.
Import PatternFacts SeriesFacts SeriesProps PhraseProps MainProps.

(** ** The phrase is found exactly when its words occur *)

Lemma word_ci_matches : forall w a prev rest,
  map lower a = map lower w -> matches (Seq (map LitI w)) prev a rest.
Proof.
  induction w as [|c w IH]; intros a prev rest H.
  - destruct a; [constructor | discriminate].
  - destruct a as [|x a]; [discriminate|]. simpl in H. injection H as Hx Ha.
    destruct w as [|c' w].
    + destruct a; [|discriminate]. simpl. constructor.
      rewrite Hx. apply Ascii.eqb_refl.
    + change (Seq (map LitI (c :: c' :: w)))
        with (Cat (LitI c) (Seq (map LitI (c' :: w)))).
      change (x :: a) with ([x] ++ a). constructor.
      * constructor. rewrite Hx. apply Ascii.eqb_refl.
      * apply IH. exact Ha.
Qed.

Lemma star_chr_matches : forall p m prev rest,
  forallb p m = true -> matches (Star (Chr p)) prev m rest.
Proof.
  intros p m. induction m as [|c m IH]; intros prev rest H.
  - constructor.
  - simpl in H. apply andb_true_iff in H. destruct H as [Hc Hm].
    change (c :: m) with ([c] ++ m). apply M_StarS.
    + discriminate.
    + constructor. exact Hc.
    + apply IH. exact Hm.
Qed.

Lemma spaces_matches : forall s prev rest,
  spaces s -> matches (Plus Space) prev s rest.
Proof.
  intros [|c s] prev rest [Hne H]; [congruence|].
  simpl in H. apply andb_true_iff in H. destruct H as [Hc Hs].
  change (c :: s) with ([c] ++ s). unfold Plus. constructor.
  - constructor. exact Hc.
  - apply star_chr_matches. exact Hs.
Qed.

Lemma mcm_label_matches : forall a s1 b s2 c prev rest,
  eq_ci a "Monthly" -> spaces s1 -> eq_ci b "Citation" -> spaces s2 ->
  eq_ci c "Metric" ->
  matches mcm_label prev (a ++ s1 ++ b ++ s2 ++ c) rest.
Proof.
  intros a s1 b s2 c prev rest Ha Hs1 Hb Hs2 Hc.
  change mcm_label with
    (Cat (WordI "Monthly") (Cat (Plus Space) (Cat (WordI "Citation")
      (Cat (Plus Space) (WordI "Metric"))))).
  repeat (constructor;
          first [ apply word_ci_matches; assumption
                | apply spaces_matches; assumption
                | idtac ]).
Qed.


(** ** The series never raises and holds no month twice *)

(** X1.  [parse_series] returns a list on every page: each value token
    of the array is a text [float] accepts, so nothing is raised. *)
Theorem parse_series_never_raises : forall html,
  exists series, parse_series html = Ok series.
Proof. exact parse_series_total. Qed.

Lemma firstn_NoDup : forall (A : Type) n (l : list A),
  NoDup l -> NoDup (firstn n l).
Proof.
  intros A n l H. rewrite <- (firstn_skipn n l) in H.
  apply NoDup_app_remove_r in H. exact H.
Qed.

(** X2.  No month stands twice in a returned series: the repeated
    tokens are removed before the pairing, which keeps a prefix of the
    months that are left. *)
Theorem series_months_distinct : forall html series,
  parse_series html = Ok series -> NoDup (map month series).
Proof.
  intros html series Hs.
  destruct (parse_series_cases html) as [H0|(i & j & a & b & Hi & Ha)].
  - rewrite H0 in Hs. injection Hs as <-. constructor.
  - destruct (parse_series_found _ Hi Ha) as (values & _ & _ & _ & Hp).
    rewrite Hp in Hs. injection Hs as <-.
    rewrite build_series_months by apply Nat.le_min_l.
    apply firstn_NoDup, dedup_NoDup.
Qed.

Lemma series_months_distinct_witness :
  NoDup [lit "2024-01"; lit "2024-02"].
Proof.
  apply (@series_months_distinct page_repeated_month
           [ {| month := lit "2024-01"; value := f_0_1 |};
             {| month := lit "2024-02"; value := f_0_2 |} ]).
  vm_compute. reflexivity.
Defined.

End MoreProps.

(* ================================================================== *)
(** * What [float] is given *)

Module FloatDomain.
Import CharClass Re ReFacts SearchFacts F64 F64Facts Py Json Scilit Spec.
Import PatternFacts.

Lemma forallb_weaken : forall (A : Type) (p q : A -> bool) l,
  (forall x, p x = true -> q x = true) ->
  forallb p l = true -> forallb q l = true.
Proof.
  intros A p q l H. induction l as [|x l IH]; simpl; trivial.
  intros Hl. apply andb_true_iff in Hl. destruct Hl as [Hx Hl].
  rewrite (H _ Hx), (IH Hl). reflexivity.
Qed.

(** A match holds only characters its pattern can consume. *)
Lemma matches_chars : forall r prev m rest,
  matches r prev m rest -> forallb (chars_of r) m = true.
Proof.
  intros r prev m rest H.
  induction H as [| p c prev rest Hc
                  | r1 r2 prev m1 m2 rest _ IH1 _ IH2
                  | r1 r2 prev m rest _ IH
                  | r1 r2 prev m rest _ IH
                  |
                  | r prev m1 m2 rest _ _ IH1 _ IH2
                  | ]; simpl; trivial.
  - rewrite Hc. reflexivity.
  - rewrite forallb_app. apply andb_true_iff. split.
    + apply forallb_weaken with (p := chars_of r1); [|exact IH1].
      intros c Hc. rewrite Hc. reflexivity.
    + apply forallb_weaken with (p := chars_of r2); [|exact IH2].
      intros c Hc. rewrite Hc. apply orb_true_r.
  - apply forallb_weaken with (p := chars_of r1); [|exact IH].
    intros c Hc. simpl. rewrite Hc. reflexivity.
  - apply forallb_weaken with (p := chars_of r2); [|exact IH].
    intros c Hc. simpl. rewrite Hc. apply orb_true_r.
  - rewrite forallb_app. apply andb_true_iff. split; assumption.
Qed.

Lemma number_chars : forall c,
  chars_of number_re c = true ->
  (is_digit c || Ascii.eqb c "." || Ascii.eqb c ",") = true.
Proof.
  intros c H. unfold number_re, Seq, Opt, Plus, Digit, Sep in H.
  cbn [chars_of] in H.
  destruct (is_digit c), (Ascii.eqb c "."), (Ascii.eqb c ",");
    simpl in *; congruence.
Qed.

Lemma value_chars : forall c,
  chars_of value_re c = true -> digit_or_dot c = true.
Proof.
  intros c H. unfold value_re, Seq, Opt, Plus, Digit, Lit in H.
  cbn [chars_of] in H. unfold digit_or_dot.
  rewrite (Ascii.eqb_sym c). 
  destruct (is_digit c), (Ascii.eqb "." c); simpl in *; congruence.
Qed.

Lemma normalized_chars : forall tok,
  forallb (fun c => is_digit c || Ascii.eqb c "." || Ascii.eqb c ",") tok
  = true ->
  forallb digit_or_dot (replace "," (lit ".") (replace "." [] tok)) = true.
Proof.
  induction tok as [|c tok IH]; intros H; [reflexivity|].
  cbn [forallb] in H. apply andb_true_iff in H. destruct H as [Hc Ht].
  unfold replace in *. cbn [flat_map].
  destruct (Ascii.eqb c ".") eqn:Edot.
  - cbn [app]. apply IH. exact Ht.
  - cbn [app flat_map]. rewrite forallb_app. apply andb_true_iff.
    split; [|apply IH; exact Ht].
    destruct (Ascii.eqb c ",") eqn:Ecomma; [reflexivity|].
    cbn [forallb]. unfold digit_or_dot. rewrite Edot.
    rewrite ?Edot, ?Ecomma, ?orb_false_r in Hc.
    rewrite Hc. reflexivity.
Qed.

(** X4.  Every text the script passes to [float] holds decimal digits
    and ['.'] only: the normalized number token of
    [parse_number_near_label] and the value tokens of [parse_series]. *)
Theorem float_arguments : 
  (forall chunk a b,
     search number_re chunk = Some (a, b) ->
     forallb digit_or_dot
       (replace "," (lit ".") (replace "." [] (slice chunk a b))) = true)
  /\ (forall raw v,
        In v (findall value_re raw) -> forallb digit_or_dot v = true).
Proof.
  split.
  - intros chunk a b H. apply search_at_some in H.
    destruct H as (pre & m & post & -> & -> & -> & Hm & _).
    simpl Nat.add. rewrite slice_app.
    apply normalized_chars. apply matches_chars in Hm.
    apply forallb_weaken with (p := chars_of number_re); [|exact Hm].
    exact number_chars.
  - intros raw v H. apply findall_matches in H.
    destruct H as (prev & rest & Hm). apply matches_chars in Hm.
    apply forallb_weaken with (p := chars_of value_re); [|exact Hm].
    exact value_chars.
Qed.

End FloatDomain.

(* ================================================================== *)
(** * More on [parse_number_near_label] *)

Module NumberMore.
Import CharClass Re ReFacts SearchFacts F64 F64Facts Py Json Scilit Spec.
Import MoreSpec PatternFacts NumberProps FloatDomain.

(** ** Where the number token starts *)

(** The number grammar matches at every digit. *)
Lemma number_matches_digit : forall prev c s,
  is_digit c = true -> match_here number_re prev (c :: s) <> None.
Proof.
  intros prev c s Hc.
  change number_re with
    (Cat Digit (Cat (Opt (Cat Digit (Opt Digit)))
       (Cat (Star (Seq [Sep; Digit; Digit; Digit]))
            (Opt (Seq [Sep; Plus Digit]))))).
  apply (@match_here_complete _ prev [c] s).
  change [c] with ([c] ++ [] ++ [] ++ []).
  apply M_Cat; [constructor; exact Hc|].
  apply M_Cat; [apply M_AltR, M_Eps|].
  apply M_Cat; [apply M_Star0 | apply M_AltR, M_Eps].
Qed.

Lemma number_token_head : forall prev m rest,
  matches number_re prev m rest ->
  exists c m', m = c :: m' /\ is_digit c = true.
Proof.
  intros prev m rest H.
  change number_re with
    (Cat Digit (Cat (Opt (Cat Digit (Opt Digit)))
       (Cat (Star (Seq [Sep; Digit; Digit; Digit]))
            (Opt (Seq [Sep; Plus Digit]))))) in H.
  inversion H as [| |? ? ? m1 m2 ? H1 H2| | | | |]; subst.
  apply matches_chr in H1. destruct H1 as (c & -> & Hc).
  exists c, m2. split; [reflexivity | exact Hc].
Qed.

Lemma no_digit_app : forall a b,
  no_digit (a ++ b) = no_digit a && no_digit b.
Proof. intros a b. unfold no_digit. apply forallb_app. Qed.

(** The search for a number fails exactly on the texts without a digit. *)
Lemma search_number_none : forall chunk,
  search number_re chunk = None <-> no_digit chunk = true.
Proof.
  intros chunk. split.
  - intros H. unfold no_digit. apply forallb_forall. intros c Hin.
    apply in_split in Hin. destruct Hin as (pre & post & ->).
    destruct (is_digit c) eqn:Hc; [|reflexivity].
    exfalso. apply (@number_matches_digit (last_char None pre) c post Hc).
    eapply search_at_none; [exact H | reflexivity].
  - intros H. unfold search.
    rewrite <- (app_nil_r chunk), search_number_skip by exact H.
    rewrite search_at_eq.
    destruct (match_here number_re (last_char None chunk) []) eqn:E;
      [|reflexivity].
    apply match_here_sound in E. destruct E as (m & Hs & Hm).
    apply number_token_head in Hm. destruct Hm as (c & m' & -> & _).
    discriminate.
Qed.

(** A number found starts at the first digit of the text. *)
Lemma search_number_some : forall chunk a b,
  search number_re chunk = Some (a, b) ->
  exists pre tok post,
    chunk = pre ++ tok ++ post /\ a = length pre /\ b = a + length tok
    /\ no_digit pre = true
    /\ (exists c tok', tok = c :: tok' /\ is_digit c = true)
    /\ matches number_re (last_char None pre) tok post.
Proof.
  intros chunk a b H. apply search_at_some in H.
  destruct H as (pre & tok & post & -> & -> & -> & Hm & _ & Hleft).
  exists pre, tok, post. repeat split; trivial.
  - unfold no_digit. apply forallb_forall. intros c Hin.
    apply in_split in Hin. destruct Hin as (p1 & p2 & ->).
    destruct (is_digit c) eqn:Hc; [|reflexivity].
    exfalso.
    apply (@number_matches_digit (last_char None p1) c
             (p2 ++ tok ++ post) Hc).
    apply Hleft. reflexivity.
  - eapply number_token_head; eauto.
Qed.

(** ** When the token is read *)

Lemma normalized_dots : forall tok,
  count_occ ascii_dec (replace "," (lit ".") (replace "." [] tok)) "."%char
  = commas tok.
Proof.
  unfold commas, replace. induction tok as [|c tok IH]; [reflexivity|].
  cbn [flat_map count_occ].
  destruct (Ascii.eqb_spec c ".") as [->|Hdot].
  - cbn [app]. rewrite IH.
    destruct (ascii_dec "." ","); [discriminate | reflexivity].
  - cbn [app flat_map]. rewrite count_occ_app, IH.
    destruct (Ascii.eqb_spec c ",") as [->|Hcomma].
    + cbn [lit list_ascii_of_string count_occ].
      destruct (ascii_dec "." "."); [|congruence].
      destruct (ascii_dec "," ","); [reflexivity | congruence].
    + cbn [count_occ].
      destruct (ascii_dec c "."); [congruence|].
      destruct (ascii_dec c ","); [congruence | reflexivity].
Qed.

Lemma digit_or_dot_cases : forall c,
  digit_or_dot c = true ->
  (c = "."%char /\ is_digit c = false)
  \/ (is_digit c = true /\ Ascii.eqb c "." = false).
Proof.
  intros c H. unfold digit_or_dot in H.
  destruct (Ascii.eqb c ".") eqn:E.
  - apply Ascii.eqb_eq in E. subst c. left. split; reflexivity.
  - right. rewrite orb_false_r in H. split; [exact H | reflexivity].
Qed.

Lemma all_digits_no_dot : forall s,
  forallb digit_or_dot s = true ->
  (all_digits s = true <-> count_occ ascii_dec s "."%char = 0).
Proof.
  unfold all_digits. induction s as [|c s IH]; intros H.
  - split; reflexivity.
  - cbn [forallb] in H. apply andb_true_iff in H. destruct H as [Hc Hs].
    specialize (IH Hs). cbn [forallb count_occ].
    destruct (digit_or_dot_cases _ Hc) as [[-> Hd]|[Hd Hne]].
    + rewrite Hd. destruct (ascii_dec "." "."); [|congruence].
      split; discriminate.
    + rewrite Hd. destruct (ascii_dec c ".") as [->|_]; [discriminate|].
      exact IH.
Qed.

Lemma split_dot_spec : forall s,
  forallb digit_or_dot s = true ->
  match split_dot s with
  | (ip, None) => ip = s /\ all_digits s = true
  | (ip, Some fp) =>
      s = ip ++ "."%char :: fp /\ all_digits ip = true
      /\ forallb digit_or_dot fp = true
      /\ count_occ ascii_dec s "."%char
         = S (count_occ ascii_dec fp "."%char)
  end.
Proof.
  induction s as [|c s IH]; intros H.
  - split; reflexivity.
  - cbn [forallb] in H. apply andb_true_iff in H. destruct H as [Hc Hs].
    specialize (IH Hs). cbn [split_dot].
    destruct (digit_or_dot_cases _ Hc) as [[-> Hd]|[Hd Hne]].
    + cbn [Ascii.eqb Bool.eqb]. repeat split; trivial.
    + rewrite Hne. destruct (split_dot s) as [ip [fp|]].
      * destruct IH as (-> & Hip & Hfp & Hcount). repeat split; trivial.
        -- unfold all_digits in *. cbn [forallb]. rewrite Hd. exact Hip.
        -- cbn [app count_occ].
           destruct (ascii_dec c ".") as [->|_]; [discriminate|].
           exact Hcount.
      * destruct IH as (-> & Hall). split; [reflexivity|].
        unfold all_digits in *. cbn [forallb]. rewrite Hd. exact Hall.
Qed.

(** On a text of digits and points that begins with a digit, [float]
    fails exactly when there are two points or more. *)
Lemma py_float_none_iff : forall c s,
  is_digit c = true -> forallb digit_or_dot (c :: s) = true ->
  (py_float (c :: s) = None
   <-> 2 <= count_occ ascii_dec (c :: s) "."%char).
Proof.
  intros c s Hc H. unfold py_float.
  pose proof (split_dot_spec _ H) as Hsplit.
  destruct (split_dot (c :: s)) as [ip [fp|]].
  - destruct Hsplit as (Hs & Hip & Hfp & Hcount). rewrite Hcount, Hip.
    assert (Hnil : is_nil ip = false).
    { destruct ip as [|x ip]; [|reflexivity].
      cbn [app] in Hs. injection Hs as -> _. discriminate. }
    rewrite Hnil. cbn [andb negb]. rewrite andb_true_r.
    pose proof (all_digits_no_dot _ Hfp) as Hiff.
    destruct (all_digits fp).
    + split; [discriminate|]. intros Hle.
      assert (count_occ ascii_dec fp "."%char = 0) by (apply Hiff; reflexivity).
      lia.
    + split; [|reflexivity]. intros _.
      destruct (count_occ ascii_dec fp "."%char) eqn:E; [|lia].
      assert (false = true) by (apply Hiff; reflexivity). discriminate.
  - destruct Hsplit as (-> & Hall). rewrite Hall. cbn [is_nil andb negb].
    split; [discriminate|]. intros Hle.
    apply all_digits_no_dot in Hall; [|exact H]. lia.
Qed.

Lemma integer_has_int : forall x,
  is_integer x = true -> exists z, to_int x = Some z.
Proof. intros [s|s| |s m e] H; try discriminate; simpl; eauto. Qed.

Lemma to_int_nonneg : forall x z,
  nonneg x = true -> to_int x = Some z -> (0 <= z)%Z.
Proof.
  intros [s|s| |s m e] z Hn Hz; try discriminate;
    cbn [to_int nonneg] in *.
  - injection Hz as <-. lia.
  - destruct s; [discriminate|]. cbv zeta in Hz.
    assert (Ha : (0 <= if 0 <=? e then Zpos m * 2 ^ e
                       else Zpos m / 2 ^ (- e))%Z).
    { destruct (0 <=? e)%Z eqn:He.
      - apply Z.mul_nonneg_nonneg; [lia|]. apply Z.pow_nonneg. lia.
      - apply Z.div_pos; [lia|]. apply Z.pow_pos_nonneg; lia. }
    set (a := if (0 <=? e)%Z then _ else _) in *.
    assert (z = a) by congruence. subst z. exact Ha.
Qed.

(** The token of the number grammar, once normalized, is read unless it
    holds two commas or more. *)
Lemma read_number_none_iff : forall prev tok rest,
  matches number_re prev tok rest ->
  (read_number tok = None <-> 2 <= commas tok).
Proof.
  intros prev tok rest Hm.
  destruct (number_token_head Hm) as (c & tok' & -> & Hc).
  assert (Hchars : forallb digit_or_dot
            (replace "," (lit ".") (replace "." [] (c :: tok'))) = true).
  { apply normalized_chars. apply matches_chars in Hm.
    apply forallb_weaken with (p := chars_of number_re); [|exact Hm].
    exact number_chars. }
  assert (Hhead : replace "," (lit ".") (replace "." [] (c :: tok'))
                  = c :: replace "," (lit ".") (replace "." [] tok')).
  { unfold replace. cbn [flat_map].
    assert (Ascii.eqb c "." = false /\ Ascii.eqb c "," = false) as [E1 E2].
    { destruct c as [[] [] [] [] [] [] [] []];
        try discriminate; split; reflexivity. }
    rewrite E1. cbn [app flat_map]. rewrite E2. reflexivity. }
  unfold read_number. rewrite <- normalized_dots.
  rewrite Hhead in *.
  rewrite <- (@py_float_none_iff c _ Hc Hchars).
  destruct (py_float _) as [x|] eqn:E; [|tauto].
  split; [|discriminate].
  destruct (is_integer x) eqn:Hi; [|discriminate].
  destruct (integer_has_int _ Hi) as (z & ->). discriminate.
Qed.

(** X5.  [parse_number_near_label] returns [None] in three cases and no
    other: the label is not found; the window around the label holds no
    digit; the first number token of the window holds two commas or
    more, so that its normalized text has two points and [float]
    rejects it. *)
Theorem number_not_found_iff : forall html label_regex,
  parse_number_near_label html label_regex = None
  <-> search label_regex html = None
      \/ exists i j,
           search label_regex html = Some (i, j)
           /\ (no_digit (label_window html i j) = true
               \/ exists a b,
                    search number_re (label_window html i j) = Some (a, b)
                    /\ 2 <= commas (slice (label_window html i j) a b)).
Proof.
  intros html label_regex. rewrite parse_number_near_label_eq.
  destruct (search label_regex html) as [[i j]|]; [|tauto].
  unfold first_number.
  destruct (search number_re (label_window html i j)) as [[a b]|] eqn:E.
  - assert (Htok : exists prev rest,
              matches number_re prev (slice (label_window html i j) a b) rest).
    { pose proof E as E'. apply search_number_some in E'.
      destruct E' as (pre & tok & post & Hw & -> & -> & _ & _ & Hm).
      rewrite Hw, slice_app. eauto. }
    destruct Htok as (prev & rest & Hm).
    pose proof Hm as Hiff. apply read_number_none_iff in Hiff.
    split.
    + intros H. right. exists i, j. split; [reflexivity|]. right.
      exists a, b. split; [exact E | apply Hiff; exact H].
    + intros [H|(i' & j' & Hij & [H|(a' & b' & Hab & H)])];
        try discriminate.
      * injection Hij as <- <-. apply search_number_none in H. congruence.
      * injection Hij as <- <-. rewrite E in Hab. injection Hab as <- <-.
        apply Hiff. exact H.
  - apply search_number_none in E. split; [|reflexivity].
    intros _. right. exists i, j. split; [reflexivity|]. left. exact E.
Qed.

(** X6.  What [parse_number_near_label] returns is never negative; it
    is an [int] exactly when the float read has no fractional part, so
    a [float] result is never integral (nor a NaN). *)
Theorem number_result_sign : forall html label_regex n,
  parse_number_near_label html label_regex = Some n ->
  match n with
  | PInt z => (0 <= z)%Z
  | PFloat x => nonneg x = true /\ is_integer x = false
  end.
Proof.
  intros html label_regex n H. rewrite parse_number_near_label_eq in H.
  destruct (search label_regex html) as [[i j]|]; [|discriminate].
  unfold first_number in H.
  destruct (search number_re (label_window html i j)) as [[a b]|];
    [|discriminate].
  unfold read_number in H.
  destruct (py_float _) as [x|] eqn:E; [|discriminate].
  apply py_float_nonneg in E.
  destruct (is_integer x) eqn:Hi.
  - destruct (to_int x) as [z|] eqn:Hz; [|discriminate].
    injection H as <-. eapply to_int_nonneg; eauto.
  - injection H as <-. split; [exact E | exact Hi].
Qed.

Lemma number_result_sign_witness :
  (0 <= 5)%Z /\ (nonneg f_1_276 = true /\ is_integer f_1_276 = false).
Proof.
  split.
  - apply (@number_result_sign (lit "<td>h5-index</td><td>42</td>")
             h5_label (PInt 5)).
    vm_compute. reflexivity.
  - apply (@number_result_sign
             (lit "Monthly Citation Metric citations: 1,276 total")
             mcm_label (PFloat f_1_276)).
    vm_compute. reflexivity.
Defined.

(** ** The window *)

(** X7.  The number read near a label depends on the page only through
    the (up to) 200 characters before the first match of the label, the
    match, and the (up to) 400 characters after it: two pages that
    agree there give the same result. *)
Theorem number_depends_on_window :
  forall (pre pre' m post post' : str) label_regex,
  search label_regex (pre ++ m ++ post)
    = Some (length pre, length pre + length m) ->
  search label_regex (pre' ++ m ++ post')
    = Some (length pre', length pre' + length m) ->
  skipn (length pre - 200) pre = skipn (length pre' - 200) pre' ->
  firstn 400 post = firstn 400 post' ->
  parse_number_near_label (pre ++ m ++ post) label_regex
  = parse_number_near_label (pre' ++ m ++ post') label_regex.
Proof.
  intros pre pre' m post post' label_regex H H' Hpre Hpost.
  rewrite !parse_number_near_label_eq, H, H'. unfold label_window.
  rewrite !chunk_around, Hpre, Hpost. reflexivity.
Qed.

Lemma number_depends_on_window_witness :
  parse_number_near_label
    (lit "<p>" ++ lit "Monthly Citation Metric"
       ++ lit ": 3" ++ repeat " "%char 400 ++ lit "8") mcm_label
  = parse_number_near_label
    (lit "<p>" ++ lit "Monthly Citation Metric"
       ++ lit ": 3" ++ repeat " "%char 400 ++ lit "9,5") mcm_label.
Proof.
  apply (@number_depends_on_window
           (lit "<p>") (lit "<p>") (lit "Monthly Citation Metric")
           (lit ": 3" ++ repeat " "%char 400 ++ lit "8")
           (lit ": 3" ++ repeat " "%char 400 ++ lit "9,5") mcm_label);
    vm_compute; reflexivity.
Defined.

(** ** A run of four digits or more *)

Lemma digit_cases : forall c,
  is_digit c = true -> In c (lit "0123456789").
Proof.
  intros c H. destruct c as [[] [] [] [] [] [] [] []];
    try discriminate H; cbn; tauto.
Qed.

Lemma digit_not_sep : forall c,
  is_digit c = true -> (Ascii.eqb c "." || Ascii.eqb c ",") = false.
Proof.
  intros c H. destruct c as [[] [] [] [] [] [] [] []];
    try discriminate H; reflexivity.
Qed.

(** Of four digits in a row the grammar takes three: the fourth is no
    separator, so no group follows. *)
Lemma number_at_four_digits : forall prev d1 d2 d3 d4 s,
  is_digit d1 = true -> is_digit d2 = true ->
  is_digit d3 = true -> is_digit d4 = true ->
  match_here number_re prev (d1 :: d2 :: d3 :: d4 :: s) = Some (d4 :: s).
Proof.
  intros prev d1 d2 d3 d4 s H1 H2 H3 H4.
  pose proof (digit_not_sep _ H4) as Hs.
  unfold match_here, number_re, Seq, Opt, Plus, Digit, Sep.
  cbn [mt star_loop length]. rewrite H1, H2, H3, Hs. reflexivity.
Qed.

Lemma read_three_digits : forall d1 d2 d3,
  is_digit d1 = true -> is_digit d2 = true -> is_digit d3 = true ->
  read_number [d1; d2; d3] = Some (PInt (three_digits d1 d2 d3)).
Proof.
  intros d1 d2 d3 H1 H2 H3.
  assert (Hall : forallb (fun a => forallb (fun b => forallb (fun c =>
            match read_number [a; b; c] with
            | Some (PInt z) => Z.eqb z (three_digits a b c)
            | _ => false
            end) (lit "0123456789")) (lit "0123456789")) (lit "0123456789")
          = true) by (vm_compute; reflexivity).
  rewrite forallb_forall in Hall.
  specialize (Hall _ (digit_cases _ H1)). rewrite forallb_forall in Hall.
  specialize (Hall _ (digit_cases _ H2)). rewrite forallb_forall in Hall.
  specialize (Hall _ (digit_cases _ H3)).
  destruct (read_number [d1; d2; d3]) as [[z|x]|]; try discriminate.
  apply Z.eqb_eq in Hall. rewrite Hall. reflexivity.
Qed.

(** X8.  When the first digits of the window are a run of four or more,
    the number returned is the integer made of the first three: the
    [\d{1,3}] of the grammar stops there and the rest of the run is
    dropped. *)
Theorem long_digit_run_cut :
  forall html label_regex i j pre d1 d2 d3 d4 rest,
  search label_regex html = Some (i, j) ->
  label_window html i j = pre ++ d1 :: d2 :: d3 :: d4 :: rest ->
  no_digit pre = true ->
  is_digit d1 = true -> is_digit d2 = true ->
  is_digit d3 = true -> is_digit d4 = true ->
  parse_number_near_label html label_regex
  = Some (PInt (three_digits d1 d2 d3)).
Proof.
  intros html label_regex i j pre d1 d2 d3 d4 rest Hl Hw Hpre H1 H2 H3 H4.
  rewrite parse_number_near_label_eq, Hl, Hw.
  unfold first_number, search.
  rewrite search_number_skip by exact Hpre.
  rewrite search_at_eq, number_at_four_digits by assumption.
  replace (0 + length pre
           + (length (d1 :: d2 :: d3 :: d4 :: rest) - length (d4 :: rest)))
    with (length pre + length [d1; d2; d3]) by (cbn [length]; lia).
  cbn [Nat.add].
  change (pre ++ d1 :: d2 :: d3 :: d4 :: rest)
    with (pre ++ [d1; d2; d3] ++ d4 :: rest).
  rewrite slice_app. apply read_three_digits; assumption.
Qed.

Lemma long_digit_run_cut_witness :
  parse_number_near_label (lit "Monthly Citation Metric: 12345") mcm_label
  = Some (PInt 123).
Proof.
  apply (@long_digit_run_cut (lit "Monthly Citation Metric: 12345")
           mcm_label 0 23 (lit "Monthly Citation Metric: ")
           "1"%char "2"%char "3"%char "4"%char (lit "5"));
    vm_compute; reflexivity.
Defined.

End NumberMore.

(* ================================================================== *)
(** * More on [parse_series] *)

Module SeriesMore.
Import CharClass Re ReFacts SearchFacts F64 F64Facts Py Json Scilit Spec.
Import MoreSpec PatternFacts SeriesFacts.

(** ** The array holds a value *)

Lemma value_matches_digit : forall prev c s,
  is_digit c = true -> match_here value_re prev (c :: s) <> None.
Proof.
  intros prev c s Hc.
  change value_re with
    (Cat (Cat Digit (Star Digit)) (Opt (Cat (Lit ".") (Plus Digit)))).
  apply (@match_here_complete _ prev [c] s).
  change [c] with (([c] ++ []) ++ []).
  apply M_Cat; [|apply M_AltR, M_Eps].
  apply M_Cat; [constructor; exact Hc | apply M_Star0].
Qed.

Lemma findall_go_value_nonempty : forall fuel prev s c,
  length s < fuel -> In c s -> is_digit c = true ->
  findall_go value_re fuel prev s <> [].
Proof.
  induction fuel as [|fuel IH]; intros prev s c Hlen Hin Hc; [lia|].
  cbn [findall_go].
  destruct (match_here value_re prev s) as [rest|] eqn:E.
  - cbv zeta. destruct (length s - length rest); [|discriminate].
    destruct s; discriminate.
  - destruct s as [|c0 s']; [contradiction|].
    destruct Hin as [->|Hin].
    + exfalso. exact (@value_matches_digit prev c s' Hc E).
    + apply IH with (c := c); trivial. cbn [length] in Hlen. lia.
Qed.

Lemma array_has_digit : forall prev m rest,
  matches array_re prev m rest -> exists c, In c m /\ is_digit c = true.
Proof.
  intros prev m rest H.
  change array_re with
    (Cat (Lit "[")
       (Cat (Cat (Cat (Star Space)
                   (Cat (Plus Digit)
                      (Cat (Opt (Seq [Lit "."; Plus Digit]))
                         (Cat (Star Space) (Opt (Lit ","))))))
                 (Star (Seq [Star Space; Plus Digit;
                             Opt (Seq [Lit "."; Plus Digit]);
                             Star Space; Opt (Lit ",")])))
            (Cat (Star Space) (Lit "]")))) in H.
  inversion H as [| |? ? ? m1 m2 ? _ H2| | | | |]; subst. clear H.
  inversion H2 as [| |? ? ? m3 m4 ? H3 _| | | | |]; subst. clear H2.
  inversion H3 as [| |? ? ? m5 m6 ? H5 _| | | | |]; subst. clear H3.
  inversion H5 as [| |? ? ? m7 m8 ? _ H8| | | | |]; subst. clear H5.
  inversion H8 as [| |? ? ? m9 m10 ? H9 _| | | | |]; subst. clear H8.
  unfold Digit in H9. apply matches_plus_chr in H9.
  destruct H9 as (c & ds & -> & Hc & _).
  exists c. split; [|exact Hc].
  apply in_or_app. right. apply in_or_app. left. apply in_or_app. left.
  apply in_or_app. right. left. reflexivity.
Qed.

(** The array found in the window gives one value at least. *)
Lemma array_values_nonempty : forall window a b,
  search array_re window = Some (a, b) ->
  findall value_re (slice window a b) <> [].
Proof.
  intros window a b H. apply search_at_some in H.
  destruct H as (pre & m & post & -> & Ha & Hb & Hm & _).
  simpl in Ha. subst a b. rewrite slice_app.
  destruct (array_has_digit Hm) as (c & Hin & Hc).
  unfold findall. eapply findall_go_value_nonempty; eauto.
Qed.

Lemma dedup_nil : forall l, dedup [] l = [] -> l = [].
Proof. intros [|m l] H; [reflexivity | discriminate]. Qed.

(** X9.  [parse_series] returns the empty list in three cases and no
    other: the phrase is not found; no bracketed array is found in the
    window that starts at the phrase; the page holds no month token.  An
    array that is found always gives a value, so an empty series never
    comes from the values. *)
Theorem series_empty_iff : forall html,
  parse_series html = Ok []
  <-> search mcm_label html = None
      \/ (exists i j,
            search mcm_label html = Some (i, j)
            /\ search array_re (slice html i (i + window_size)) = None)
      \/ findall month_re html = [].
Proof.
  intros html. split.
  - intros H.
    destruct (search mcm_label html) as [[i j]|] eqn:Hi; [|left; reflexivity].
    destruct (search array_re (slice html i (i + window_size)))
      as [[a b]|] eqn:Ha.
    + right. right.
      destruct (parse_series_found _ Hi Ha) as (values & _ & Hlen & _ & Hp).
      rewrite Hp in H.
      assert (Hn : length (build_series (dedup [] (findall month_re html))
                      values
                      (Nat.min (length (dedup [] (findall month_re html)))
                               (length values))) = 0)
        by (assert (E : forall l : list point, Ok l = Ok [] -> length l = 0)
              by (intros l E; injection E as ->; reflexivity);
            apply E; exact H).
      rewrite build_series_length in Hn.
      pose proof (array_values_nonempty _ Ha) as Hv.
      destruct (findall value_re _) as [|v vs] eqn:Ev; [congruence|].
      cbn [length] in Hlen. rewrite Hlen in Hn.
      apply dedup_nil.
      destruct (dedup [] (findall month_re html)); [reflexivity|].
      cbn [length] in Hn. lia.
    + right. left. exists i, j. split; [reflexivity | exact Ha].
  - intros [H|[(i & j & Hi & Ha)|H]].
    + unfold parse_series. rewrite H. reflexivity.
    + unfold parse_series. rewrite Hi, Ha. reflexivity.
    + destruct (parse_series_cases html) as [E|(i & j & a & b & Hi & Ha)];
        [exact E|].
      destruct (parse_series_found _ Hi Ha) as (values & _ & _ & _ & Hp).
      rewrite Hp, H. reflexivity.
Qed.

(** ** Where the points come from *)

Lemma substring_refl : forall s, substring s s.
Proof. intros s. exists [], []. rewrite app_nil_r. reflexivity. Qed.

Lemma substring_trans : forall a b c,
  substring a b -> substring b c -> substring a c.
Proof.
  intros a b c (p1 & q1 & ->) (p2 & q2 & ->).
  exists (p2 ++ p1), (q1 ++ q2). rewrite <- !app_assoc. reflexivity.
Qed.

Lemma substring_skipn : forall i s, substring (skipn i s) s.
Proof.
  intros i s. exists (firstn i s), []. rewrite app_nil_r.
  symmetry. apply firstn_skipn.
Qed.

Lemma substring_firstn : forall n s, substring (firstn n s) s.
Proof.
  intros n s. exists [], (skipn n s). symmetry. apply firstn_skipn.
Qed.

Lemma substring_slice : forall s i j, substring (slice s i j) (skipn i s).
Proof. intros s i j. unfold slice. apply substring_firstn. Qed.

Lemma substring_cons : forall t c s, substring t s -> substring t (c :: s).
Proof.
  intros t c s (p & q & ->). exists (c :: p), q. reflexivity.
Qed.

(** Every text [findall] returns lies in the subject. *)
Lemma findall_go_substring : forall r fuel prev s tok,
  In tok (findall_go r fuel prev s) -> substring tok s.
Proof.
  intros r fuel. induction fuel as [|fuel IH]; intros prev s tok H;
    cbn [findall_go] in H; [contradiction|].
  destruct (match_here r prev s) as [rest|] eqn:E.
  - destruct (match_here_sound _ _ _ E) as (m & -> & Hm).
    assert (Hlen : length (m ++ rest) - length rest = length m)
      by (rewrite length_app; lia).
    cbv zeta in H. rewrite Hlen in H.
    rewrite firstn_app, firstn_all, Nat.sub_diag in H.
    cbn [firstn] in H. rewrite app_nil_r in H.
    assert (Hhead : substring m (m ++ rest)) by (exists [], rest; reflexivity).
    assert (Htail : substring tok rest -> substring tok (m ++ rest)).
    { intros (p & q & ->). exists (m ++ p), q.
      rewrite <- app_assoc. reflexivity. }
    destruct (length m) eqn:Hl.
    + destruct (m ++ rest) as [|c s'] eqn:Es.
      * destruct H as [<-|[]]. exact Hhead.
      * destruct H as [<-|H]; [exact Hhead|].
        apply substring_cons. eapply IH; exact H.
    + destruct H as [<-|H]; [exact Hhead|]. apply Htail. eapply IH; exact H.
  - destruct s as [|c s']; [contradiction|].
    apply substring_cons. eapply IH; exact H.
Qed.

Lemma findall_substring : forall r s tok,
  In tok (findall r s) -> substring tok s.
Proof. intros r s tok H. eapply findall_go_substring; exact H. Qed.

Lemma floats_in : forall vs xs x,
  floats vs = Ok xs -> In x xs ->
  exists v, In v vs /\ py_float v = Some x.
Proof.
  induction vs as [|v vs IH]; intros xs x H Hin; cbn [floats] in H.
  - injection H as <-. contradiction.
  - destruct (py_float v) as [y|] eqn:Ey; [|discriminate].
    destruct (floats vs) as [ys|e] eqn:Eys; [|discriminate].
    cbn in H. injection H as <-.
    destruct Hin as [->|Hin].
    + exists v. split; [left; reflexivity | exact Ey].
    + destruct (IH ys x eq_refl Hin) as (v' & Hv' & Hf).
      exists v'. split; [right; exact Hv' | exact Hf].
Qed.

(** X10.  The series holds nothing that the page does not: the month of
    every point is a text of the page, and its value is the rounding to
    four places of the float of a text that stands in the page at or
    after the start of the phrase. *)
Theorem series_points_from_page : forall html series pt,
  parse_series html = Ok series -> In pt series ->
  substring (month pt) html
  /\ exists i j tok x,
       search mcm_label html = Some (i, j)
       /\ substring tok (skipn i html)
       /\ py_float tok = Some x
       /\ value pt = py_round x 4.
Proof.
  intros html series pt Hs Hin.
  destruct (parse_series_cases html) as [H0|(i & j & a & b & Hi & Ha)].
  - rewrite H0 in Hs. injection Hs as <-. contradiction.
  - destruct (parse_series_found _ Hi Ha) as (values & Hf & _ & _ & Hp).
    rewrite Hp in Hs. injection Hs as <-.
    apply build_series_in in Hin; [|apply Nat.le_min_l|apply Nat.le_min_r].
    destruct Hin as (Hm & v & Hv & Hval). split.
    + apply dedup_in in Hm. destruct Hm as [Hm _].
      apply findall_substring in Hm. exact Hm.
    + destruct (@floats_in _ _ v Hf Hv) as (tok & Htok & Hx).
      exists i, j, tok, v. repeat split; trivial.
      apply findall_substring in Htok.
      eapply substring_trans; [exact Htok|].
      eapply substring_trans; [|apply substring_slice].
      eapply substring_trans; [apply substring_slice | apply substring_skipn].
Qed.

Lemma series_points_from_page_witness :
  let pt := {| month := lit "2024-01"; value := f_0_1 |} in
  substring (month pt) page_repeated_month
  /\ exists i j tok x,
       search mcm_label page_repeated_month = Some (i, j)
       /\ substring tok (skipn i page_repeated_month)
       /\ py_float tok = Some x
       /\ value pt = py_round x 4.
Proof.
  apply (@series_points_from_page page_repeated_month
           [ {| month := lit "2024-01"; value := f_0_1 |};
             {| month := lit "2024-02"; value := f_0_2 |} ]).
  - vm_compute. reflexivity.
  - left. reflexivity.
Defined.

(** ** The order of the months *)

Lemma existsb_str_eqb_swap : forall x m seen l,
  existsb (str_eqb x) (m :: seen ++ l)
  = existsb (str_eqb x) (seen ++ m :: l).
Proof.
  intros x m seen l. cbn [existsb]. rewrite !existsb_app.
  cbn [existsb]. destruct (str_eqb x m), (existsb (str_eqb x) seen);
    reflexivity.
Qed.

Lemma dedup_snoc : forall l seen x,
  dedup seen (l ++ [x])
  = dedup seen l ++ (if existsb (str_eqb x) (seen ++ l) then [] else [x]).
Proof.
  induction l as [|m l IH]; intros seen x.
  - cbn [app dedup]. rewrite app_nil_r.
    destruct (existsb (str_eqb x) seen); reflexivity.
  - cbn [app dedup]. destruct (existsb (str_eqb m) seen) eqn:E.
    + rewrite IH. f_equal. rewrite !existsb_app. cbn [existsb].
      destruct (existsb (str_eqb x) seen) eqn:Ex; [reflexivity|].
      cbn [orb]. destruct (str_eqb x m) eqn:Exm; [|reflexivity].
      apply str_eqb_eq in Exm. subst m. congruence.
    + rewrite IH. cbn [app]. f_equal. f_equal.
      rewrite existsb_str_eqb_swap. reflexivity.
Qed.

(** X11.  The months are taken in the order in which they first occur:
    a token that comes after the others is put last when it is new and
    left out when it stood there before. *)
Theorem months_in_order_of_first_occurrence : forall l x,
  dedup [] (l ++ [x])
  = dedup [] l ++ (if existsb (str_eqb x) l then [] else [x]).
Proof. intros l x. apply dedup_snoc. Qed.

End SeriesMore.

(* ================================================================== *)
(** * More on [fetch_html] and [main] *)

Module RunMore.
Import CharClass Re ReFacts SearchFacts F64 F64Facts Py Json Scilit Spec.
Import MoreSpec PatternFacts SeriesFacts MainProps.

(** ** When a run writes *)

Lemma fetch_html_ok_iff : forall env url html,
  fetch_html env url = Ok html
  <-> exists r, http_get env url headers 30 = Ok r
                /\ ~ (400 <= status_code r < 600)
                /\ html = text r.
Proof.
  intros env url html. unfold fetch_html, raise_for_status. split.
  - destruct (http_get env url headers 30) as [r|e]; [|discriminate].
    cbn [bind]. intros H. exists r. split; [reflexivity|].
    destruct (Nat.leb_spec 400 (status_code r));
      destruct (Nat.ltb_spec (status_code r) 600);
      cbn [andb bind] in H; try discriminate;
      (split; [lia | congruence]).
  - intros (r & -> & Hs & ->). cbn [bind].
    destruct (Nat.leb_spec 400 (status_code r));
      destruct (Nat.ltb_spec (status_code r) 600);
      cbn [andb bind]; try reflexivity; lia.
Qed.

(** Without a [dict] for the old snapshot, [old.get] raises as soon as
    it is called, that is unless the page gives all three results. *)
Lemma build_payload_ok_iff : forall env old html,
  (exists payload, build_payload env old html = Ok payload)
  <-> is_dict old = true
      \/ (parse_series html <> Ok []
          /\ parse_number_near_label html h5_label <> None
          /\ parse_number_near_label html mcm_label <> None).
Proof.
  intros env old html. split.
  - intros (payload & H).
    destruct old as [| | | | | |d]; try (left; reflexivity); right;
      unfold build_payload in H;
      (destruct (parse_series html) as [[|p new]|e];
         [discriminate| |discriminate]);
      (destruct (parse_number_near_label html h5_label);
         [|discriminate]);
      (destruct (parse_number_near_label html mcm_label);
         [|discriminate]);
      repeat split; discriminate.
  - intros [Hd|(Hs & Hh & Hm)].
    + destruct old; try discriminate. apply build_payload_dict.
    + unfold build_payload.
      destruct (parse_series_total html) as ([|p new] & E);
        [congruence|]. rewrite E.
      destruct (parse_number_near_label html h5_label); [|congruence].
      destruct (parse_number_near_label html mcm_label); [|congruence].
      cbn [bind]. eauto.
Qed.

Lemma ok_line_not_error_line : forall env e, ok_line <> error_line env e.
Proof. intros env e. discriminate. Qed.


(** ** A run on a page that gives nothing *)

Lemma payload_fields : forall env old html p,
  build_payload env old html = Ok p ->
  exists h5 m l,
    p = VDict [(lit "source", VStr SCILIT_URL);
               (lit "updated_at", VStr (utc_today env));
               (lit "h5_index", h5);
               (lit "mcm", m);
               (lit "series", VList l)].
Proof.
  intros env old html p H. apply build_payload_ok in H.
  destruct H as (new & _ & ->).
  assert (Hl : exists l, written_series old new = VList l).
  { unfold written_series. destruct new; [|eauto].
    destruct (field "series" old); eauto. }
  destruct Hl as (l & ->). eauto.
Qed.

(** X13.  The fallback loses nothing: when the snapshot a run has
    written is the old snapshot of a later run whose page gives no
    series and neither number, that run writes the same snapshot again,
    with the date alone renewed. *)
Theorem fallback_is_lossless : forall env env' old html html' p,
  build_payload env old html = Ok p ->
  parse_series html' = Ok [] ->
  parse_number_near_label html' h5_label = None ->
  parse_number_near_label html' mcm_label = None ->
  build_payload env' p html' = Ok (with_date (utc_today env') p).
Proof.
  intros env env' old html html' p Hp Hs Hh Hm.
  destruct (payload_fields _ _ _ Hp) as (h5 & m & l & ->).
  unfold build_payload. rewrite Hs, Hh, Hm. reflexivity.
Qed.

Lemma fallback_is_lossless_witness :
  let env := sample_env (Ok {| status_code := 200;
                               text := page_repeated_month |}) None in
  let env' := {| http_get := http_get env;
                 utc_today := lit "2026-02-01";
                 decode_utf8 := decode_utf8 env;
                 json_loads := json_loads env;
                 float_repr := float_repr env;
                 exn_repr := exn_repr env |} in
  let down := lit "<html>Service unavailable</html>" in
  exists p,
    build_payload env scenario_snapshot page_repeated_month = Ok p
    /\ build_payload env' p down = Ok (with_date (lit "2026-02-01") p)
    /\ field "series" (with_date (lit "2026-02-01") p)
       = VList [VDict [(lit "month", VStr (lit "2024-01"));
                       (lit "value", VFloat f_0_1)];
                VDict [(lit "month", VStr (lit "2024-02"));
                       (lit "value", VFloat f_0_2)]].
Proof.
  intros env env' down. eexists.
  split; [vm_compute; reflexivity|]. split.
  - apply (@fallback_is_lossless env env' scenario_snapshot
             page_repeated_month down); vm_compute; reflexivity.
  - vm_compute. reflexivity.
Defined.

(** ** What a run takes from the old snapshot *)

(** X14.  Of the old snapshot a run reads the entries [series],
    [h5_index] and [mcm] and nothing else: two old snapshots that agree
    on these give the same payload, so any other entry of the old file
    is dropped; and when the page gives a series and both numbers, the
    payload does not depend on the old snapshot at all. *)
Theorem payload_reads_three_entries : forall env html,
  (forall d d',
     assoc (lit "series") d = assoc (lit "series") d' ->
     assoc (lit "h5_index") d = assoc (lit "h5_index") d' ->
     assoc (lit "mcm") d = assoc (lit "mcm") d' ->
     build_payload env (VDict d) html = build_payload env (VDict d') html)
  /\ (forall old old',
        parse_series html <> Ok [] ->
        parse_number_near_label html h5_label <> None ->
        parse_number_near_label html mcm_label <> None ->
        build_payload env old html = build_payload env old' html).
Proof.
  intros env html. split.
  - intros d d' Hs Hh Hm. unfold build_payload, py_get, py_getitem.
    rewrite Hs, Hh, Hm. reflexivity.
  - intros old old' Hs Hh Hm. unfold build_payload.
    destruct (parse_series html) as [[|p new]|e];
      [congruence| |reflexivity].
    destruct (parse_number_near_label html h5_label); [|congruence].
    destruct (parse_number_near_label html mcm_label); [|congruence].
    reflexivity.
Qed.

(** ** A second run on the same page *)

Lemma build_payload_again : forall env old html p,
  build_payload env old html = Ok p -> build_payload env p html = Ok p.
Proof.
  intros env old html p H. apply build_payload_ok in H.
  destruct H as (new & Hnew & ->).
  unfold build_payload. rewrite Hnew. cbn [bind].
  destruct new as [|pt new]; unfold written_series;
    [destruct (field "series" old)|];
    destruct (parse_number_near_label html h5_label);
    destruct (parse_number_near_label html mcm_label); reflexivity.
Qed.

(** X15.  Running again on the same page changes nothing: when a run
    has written, and reading the file back gives the snapshot that was
    written, a second run with the same answer and the same date writes
    the same bytes again. *)
Theorem rerun_is_idempotent : forall env w html p,
  fetch_html env SCILIT_URL = Ok html ->
  build_payload env (load_old env w) html = Ok p ->
  load_old env (main env w) = p ->
  main env (main env w)
  = {| out_json := out_json (main env w);
       stdout := stdout w ++ [ok_line] ++ [ok_line] |}.
Proof.
  intros env w html p Hf Hp Hread.
  assert (H1 : main env w
               = {| out_json := Some (encode_utf8 (json_dumps env p));
                    stdout := stdout w ++ [ok_line] |})
    by (apply main_ok; eapply main_try_ok; eassumption).
  rewrite (@main_ok env (main env w) (encode_utf8 (json_dumps env p))).
  - rewrite H1. cbn [out_json stdout]. rewrite <- app_assoc. reflexivity.
  - rewrite Hread. eapply main_try_ok; [exact Hf|].
    eapply build_payload_again. exact Hp.
Qed.

Lemma rerun_is_idempotent_witness :
  let page := {| status_code := 200; text := page_repeated_month |} in
  let p := match build_payload (sample_env (Ok page) None) (VDict [])
                   page_repeated_month with
           | Ok v => v
           | Raise _ => VNone
           end in
  let env := sample_env (Ok page) (Some p) in
  let w := {| out_json := None; stdout := [] |} in
  main env (main env w)
  = {| out_json := out_json (main env w);
       stdout := stdout w ++ [ok_line] ++ [ok_line] |}.
Proof.
  intros page p env w.
  apply (@rerun_is_idempotent env w page_repeated_month p);
    vm_compute; reflexivity.
Defined.

End RunMore.

(* ================================================================== *)
(** * The label of the h5-index *)

Module LabelMore.
Import CharClass Re ReFacts SearchFacts F64 F64Facts Py Json Scilit Spec.
Import MoreSpec PatternFacts PhraseProps NumberProps MoreProps.

Lemma lower_h_word : forall c,
  Ascii.eqb (lower c) (lower "h") = true -> is_word c = true.
Proof. intros c. by_cases_on c. Qed.

Lemma lower_x_word : forall c,
  Ascii.eqb (lower c) (lower "x") = true -> is_word c = true.
Proof. intros c. by_cases_on c. Qed.

(** A text that is [index], letter case apart, ends with a word
    character. *)
Lemma eq_ci_index_last : forall idx prev,
  eq_ci idx "index" ->
  is_word_opt (last_char prev idx) = true.
Proof.
  intros idx prev H. unfold eq_ci in H.
  destruct idx as [|c1 [|c2 [|c3 [|c4 [|c5 [|c6 idx]]]]]];
    try discriminate H.
  assert (Hx : lower c5 = lower "x")
    by (cbn [map lit list_ascii_of_string] in H; congruence).
  apply Ascii.eqb_eq in Hx. apply lower_x_word in Hx.
  change (last_char prev [c1; c2; c3; c4; c5]) with (Some c5).
  exact Hx.
Qed.

Lemma xorb_true_r_false : forall a, xorb a true = true -> a = false.
Proof. intros []; [discriminate | reflexivity]. Qed.

Lemma xorb_true_l_false : forall b, xorb true b = true -> b = false.
Proof. intros []; [discriminate | reflexivity]. Qed.

(** What the label pattern matches, with the two word boundaries. *)
Lemma matches_h5_label_shape : forall prev m rest,
  matches h5_label prev m rest ->
  exists h g idx,
    m = h :: "5"%char :: g ++ idx
    /\ lower h = "h"%char /\ h5_gap g /\ eq_ci idx "index"
    /\ is_word_opt prev = false
    /\ is_word_opt (hd_error rest) = false.
Proof.
  intros prev m rest H.
  change h5_label with
    (Cat WordB (Cat (LitI "h") (Cat (Lit "5")
      (Cat (Opt (Chr (fun c => Ascii.eqb c "-" || is_space c)))
        (Cat (WordI "index") WordB))))) in H.
  inversion H as [| |? ? ? m0 m1 ? H0 H1| | | | |]; subst; clear H.
  inversion H0 as [| | | | | | |? ? Hb0]; subst; clear H0.
  inversion H1 as [| |? ? ? mh m2 ? Hh H2| | | | |]; subst; clear H1.
  apply matches_chr in Hh. destruct Hh as (h & -> & Hh).
  inversion H2 as [| |? ? ? m5 m3 ? H5 H3| | | | |]; subst; clear H2.
  apply matches_lit in H5. subst m5.
  inversion H3 as [| |? ? ? g m4 ? Hg H4| | | | |]; subst; clear H3.
  inversion H4 as [| |? ? ? idx m6 ? Hi H6| | | | |]; subst; clear H4.
  inversion H6 as [| | | | | | |? ? Hb1]; subst; clear H6.
  apply matches_word_ci in Hi.
  exists h, g, idx. rewrite app_nil_r.
  split; [reflexivity|]. split; [|split; [|split; [exact Hi|split]]].
  - apply Ascii.eqb_eq in Hh. exact Hh.
  - unfold Opt in Hg.
    inversion Hg as [| | |? ? ? ? ? Hc|? ? ? ? ? He| | |]; subst; clear Hg.
    + apply matches_chr in Hc. destruct Hc as (c & -> & Hc).
      right. exists c. split; [reflexivity | exact Hc].
    + inversion He; subst. left. reflexivity.
  - apply lower_h_word in Hh. cbn [app hd_error is_word_opt] in Hb0.
    rewrite Hh in Hb0. apply xorb_true_r_false in Hb0. exact Hb0.
  - rewrite (@eq_ci_index_last idx _ Hi) in Hb1.
    apply xorb_true_l_false in Hb1. exact Hb1.
Qed.

Lemma h5_label_matches : forall prev h g idx rest,
  lower h = "h"%char -> h5_gap g -> eq_ci idx "index" ->
  is_word_opt prev = false -> is_word_opt (hd_error rest) = false ->
  matches h5_label prev (h :: "5"%char :: g ++ idx) rest.
Proof.
  intros prev h g idx rest Hh Hg Hi Hprev Hrest.
  assert (Hh' : Ascii.eqb (lower h) (lower "h") = true)
    by (apply Ascii.eqb_eq; exact Hh).
  change h5_label with
    (Cat WordB (Cat (LitI "h") (Cat (Lit "5")
      (Cat (Opt (Chr (fun c => Ascii.eqb c "-" || is_space c)))
        (Cat (WordI "index") WordB))))).
  replace (h :: "5"%char :: g ++ idx)
    with ([] ++ [h] ++ ["5"%char] ++ g ++ idx ++ [])
    by (rewrite app_nil_r; reflexivity).
  apply M_Cat.
  { apply M_WordB. cbn [app hd_error is_word_opt].
    rewrite Hprev, (lower_h_word _ Hh'). reflexivity. }
  apply M_Cat; [apply M_Chr; exact Hh'|].
  apply M_Cat; [apply M_Chr; reflexivity|].
  apply M_Cat.
  { destruct Hg as [->|(c & -> & Hc)].
    - apply M_AltR, M_Eps.
    - apply M_AltL, M_Chr. exact Hc. }
  apply M_Cat.
  { apply word_ci_matches. exact Hi. }
  apply M_WordB. rewrite (@eq_ci_index_last idx _ Hi), Hrest. reflexivity.
Qed.


End LabelMore.

(* ================================================================== *)
(** * Checks on sample inputs *)

Module Checks.
Import CharClass Re F64 Py Json Scilit Spec.

Example digits_are_ascii :
  filter is_digit (map ascii_of_nat (seq 0 256))
  = map ascii_of_nat (seq 48 10).
Proof. vm_compute. reflexivity. Qed.

Example whitespace_codes :
  map nat_of_ascii (filter is_space (map ascii_of_nat (seq 0 256)))
  = [9; 10; 11; 12; 13; 28; 29; 30; 31; 32; 133; 160].
Proof. vm_compute. reflexivity. Qed.

Example letters_ignoring_case :
  map nat_of_ascii
    (filter (fun c => Ascii.eqb (lower c) "i") (map ascii_of_nat (seq 0 256)))
  = [73; 105].
Proof. vm_compute. reflexivity. Qed.

Example search_number_grouped :
  search number_re (lit "xx 12,345,67.5 monthly citation metric")
  = Some (3, 12).
Proof. vm_compute. reflexivity. Qed.

Example search_number_plain :
  search number_re (lit "xx 1234567.5 monthly citation metric") = Some (3, 6).
Proof. vm_compute. reflexivity. Qed.

Example search_array_skips_words :
  search array_re (lit "Monthly Citation Metric [a] [ 1, 2.5 ,3,] [4]")
  = Some (28, 41).
Proof. vm_compute. reflexivity. Qed.

Example search_array_no_trailing_dot :
  search array_re (lit "[1.]") = None /\ search array_re (lit "[1 2]") = Some (0, 5).
Proof. split; vm_compute; reflexivity. Qed.

Example findall_month_tokens :
  findall month_re (lit "2024-01 x 2024-02,2024-013 12024-1 2024-99 02024-05-2020-11")
  = [lit "2024-01"; lit "2024-02"; lit "2024-01"; lit "2024-99";
     lit "2024-05"; lit "2020-11"].
Proof. vm_compute. reflexivity. Qed.

Example findall_value_tokens :
  findall value_re (lit "[ 1, 2.5 ,3., .4 , 10.25.3]")
  = [lit "1"; lit "2.5"; lit "3"; lit "4"; lit "10.25"; lit "3"].
Proof. vm_compute. reflexivity. Qed.

Example h5_label_word_boundaries :
  search h5_label (lit "<b>H5 Index</b>: 17") = Some (3, 11)
  /\ search h5_label (lit "ah5-index: 17 and h5index7") = None
  /\ search h5_label (lit "h5_index") = None.
Proof. repeat split; vm_compute; reflexivity. Qed.

Example word_codes :
  map nat_of_ascii (filter is_word (map ascii_of_nat (seq 0 256)))
  = seq 48 10 ++ seq 65 26 ++ [95] ++ seq 97 26
    ++ [170; 178; 179; 181; 185; 186; 188; 189; 190]
    ++ seq 192 23 ++ seq 216 31 ++ seq 248 8.
Proof. vm_compute. reflexivity. Qed.

Example float_reads_decimals :
  py_float (lit "0.10") = Some f_0_1
  /\ py_float (lit "0.2") = Some f_0_2
  /\ py_float (lit "0.42") = Some f_0_42
  /\ py_float (lit "1") = Some f_1_0
  /\ py_float (lit "1.276") = Some f_1_276
  /\ py_float (lit "1.2.3") = None
  /\ py_float (lit ".") = None.
Proof. repeat split; vm_compute; reflexivity. Qed.

Example round_to_four_decimals :
  option_map (fun x => py_round x 4) (py_float (lit "2.00005"))
  = py_float (lit "2.0")
  /\ option_map (fun x => py_round x 4) (py_float (lit "0.00005"))
     = py_float (lit "0.0001")
  /\ option_map (fun x => py_round x 4) (py_float (lit "0.123456"))
     = py_float (lit "0.1235").
Proof. repeat split; vm_compute; reflexivity. Qed.

Example repeated_month_counts :
  distinct_count (findall month_re page_repeated_month) = 2
  /\ length (findall value_re (lit "[0.10, 0.20, 0.30]")) = 3
  /\ search mcm_label page_repeated_month = Some (4, 27)
  /\ slice (slice page_repeated_month 4 (4 + window_size)) 61 79
     = lit "[0.10, 0.20, 0.30]".
Proof. repeat split; vm_compute; reflexivity. Qed.

Example grouped_number_is_rejected :
  parse_number_near_label (lit "xx 1,234,567 monthly citation metric") mcm_label
  = None.
Proof. vm_compute. reflexivity. Qed.

Example dumps_nested :
  json_dumps (sample_env (Raise (KeyError [])) None)
    (VDict [(lit "a", VList [VInt 1; VInt (-20); VList []; VDict []]);
            (lit "b", VDict [(lit "k", VStr (json_text "q'b"));
                             (lit "z", VBool false)]);
            (lit "c", VFloat S754_nan); (lit "d", VNone)])
  = json_text "{
  'a': [
    1,
    -20,
    [],
    {}
  ],
  'b': {
    'k': 'q\'b',
    'z': false
  },
  'c': NaN,
  'd': null
}".
Proof. vm_compute. reflexivity. Qed.

Example old_list_raises_attribute_error :
  build_payload (sample_env (Raise (KeyError [])) None) (VList [])
    (lit "no label here")
  = Raise (AttributeError (lit "list") (lit "get")).
Proof. vm_compute. reflexivity. Qed.

End Checks.
